(** * The todo list view: filters, sort, pages and local change handlers

    A shallow embedding of [src/components/todos/todo-list.tsx] (the
    [TodoList] component: [applyFiltersAndSort], the pagination
    calculations, [handleTodoUpdate], [handleTodoDelete],
    [handleTodoCreate]) and of [handleToggleStatus] of the [TodoItem]
    component, with the types of [types/index.ts] and
    [src/types/database.ts].

    Conventions of the model:
    - JavaScript strings are [string]s of 8-bit characters; [toLowerCase]
      and [trim] act on the ASCII range.
    - a [timestamptz] column reaches the client as an ISO-8601 string; the
      model keeps such a string as the epoch milliseconds that
      [new Date(s).getTime()] returns for it ([Timestamp]).  A [Date]
      object is kept as its time value ([JsDate]).
    - arrays are lists; where in-place mutation matters (module
      [Mutable]) arrays live in a store and are handled by reference. *)

From Stdlib Require Import ZArith String Ascii.
From stdpp Require Import base list strings sorting gmap.

Local Open Scope Z_scope.

(** ** Data model *)

Definition Timestamp := Z.
Definition JsDate := Z.

Inductive TodoStatus :=
  | Status_todo | Status_in_progress | Status_done | Status_cancelled.

Inductive TodoPriority :=
  | Priority_low | Priority_medium | Priority_high | Priority_urgent.

Inductive SortField :=
  | Field_created_at | Field_title | Field_due_date | Field_priority
  | Field_status.

Inductive SortOrder := asc | desc.

#[global] Instance TodoStatus_eq_dec : EqDecision TodoStatus.
Proof. solve_decision. Defined.
#[global] Instance TodoPriority_eq_dec : EqDecision TodoPriority.
Proof. solve_decision. Defined.
#[global] Instance SortField_eq_dec : EqDecision SortField.
Proof. solve_decision. Defined.
#[global] Instance SortOrder_eq_dec : EqDecision SortOrder.
Proof. solve_decision. Defined.

(** The string each enumerated value is at run time. *)
Definition statusString (s : TodoStatus) : string :=
  match s with
  | Status_todo => "todo"
  | Status_in_progress => "in_progress"
  | Status_done => "done"
  | Status_cancelled => "cancelled"
  end.

Definition priorityString (p : TodoPriority) : string :=
  match p with
  | Priority_low => "low"
  | Priority_medium => "medium"
  | Priority_high => "high"
  | Priority_urgent => "urgent"
  end.

Record Tag := mkTag {
  tag_id : string;
  tag_name : string
}.

(** [Todo = Tables<'todos'> & { tags?: Tag[], ... }].  The columns are those
    of the [todos] row.  The filters read two further properties,
    [todo.projectId] and [todo.dueDate], which the row type does not
    declare; they are kept as separate optional properties ([None] when the
    object does not carry them or carries null). *)
Record Todo := mkTodo {
  id : string;
  user_id : string;
  project_id : string;
  title : string;
  description : option string;
  status : TodoStatus;
  priority : TodoPriority;
  due_date : option Timestamp;
  scheduled_date : option Timestamp;
  completed_at : option Timestamp;
  display_order : Z;
  created_at : Timestamp;
  updated_at : Timestamp;
  tags : option (list Tag);
  projectId : option string;
  dueDate : option Timestamp
}.

#[global] Instance Tag_eq_dec : EqDecision Tag.
Proof. solve_decision. Defined.
#[global] Instance Todo_eq_dec : EqDecision Todo.
Proof. solve_decision. Defined.

(** [interface TodoFilters]; an optional property is an [option]. *)
Record TodoFilters := mkFilters {
  filter_status : option (list TodoStatus);
  filter_priority : option (list TodoPriority);
  filter_projectId : option string;
  filter_tagIds : option (list string);
  dueDateFrom : option JsDate;
  dueDateTo : option JsDate;
  filter_search : option string
}.

Record TodoSort := mkSort {
  field : SortField;
  order : SortOrder
}.

(** [useState<TodoFiltersType>({})] *)
Definition emptyFilters : TodoFilters :=
  mkFilters None None None None None None None.

(** [useState<TodoSort>({ field: 'created_at', order: 'desc' })] *)
Definition initialSort : TodoSort := mkSort Field_created_at desc.

(** ** JavaScript built-ins used by the view logic *)

Definition isWhiteSpace (c : ascii) : bool :=
  let n := nat_of_ascii c in
  (Nat.eqb n 32 || (Nat.leb 9 n && Nat.leb n 13))%bool.

Definition lowerChar (c : ascii) : ascii :=
  let n := nat_of_ascii c in
  if (Nat.leb 65 n && Nat.leb n 90)%bool then ascii_of_nat (n + 32) else c.

Fixpoint toLowerCase (s : string) : string :=
  match s with
  | EmptyString => EmptyString
  | String c s' => String (lowerChar c) (toLowerCase s')
  end.

Fixpoint trimStart (s : string) : string :=
  match s with
  | EmptyString => EmptyString
  | String c s' => if isWhiteSpace c then trimStart s' else s
  end.

Definition reverseString (s : string) : string :=
  string_of_list_ascii (rev (list_ascii_of_string s)).

Definition trimEnd (s : string) : string :=
  reverseString (trimStart (reverseString s)).

Definition trim (s : string) : string := trimEnd (trimStart s).

(** A string is truthy when it is not empty. *)
Definition truthyString (s : string) : bool := negb (String.eqb s "").

(** [s.includes(searchString)] *)
Fixpoint includes (s searchString : string) : bool :=
  (String.prefix searchString s
   || match s with
      | EmptyString => false
      | String _ s' => includes s' searchString
      end)%bool.

(** [array.includes(x)] and [array.some(p)] *)
Definition Array_includes {A} `{EqDecision A} (l : list A) (x : A) : bool :=
  bool_decide (x ∈ l).

Definition Array_some {A} (p : A -> bool) (l : list A) : bool := existsb p l.

(** ** The filtering half of [applyFiltersAndSort] *)

Definition searchPredicate (searchLower : string) (todo : Todo) : bool :=
  (includes (toLowerCase (title todo)) searchLower
   || match description todo with
      | Some d => includes (toLowerCase d) searchLower
      | None => false
      end)%bool.

Definition dateRangePredicate (filters : TodoFilters) (todo : Todo) : bool :=
  match dueDate todo with
  | None => false
  | Some d =>
      let dueDate := d in
      if match dueDateFrom filters with
         | Some from => dueDate <? from
         | None => false
         end
      then false
      else if match dueDateTo filters with
              | Some to => dueDate >? to
              | None => false
              end
      then false
      else true
  end.

Definition applyFilters (todos : list Todo) (searchTerm : string)
    (filters : TodoFilters) : list Todo :=
  let filtered := todos in
  let filtered :=
    if truthyString (trim searchTerm) then
      let searchLower := toLowerCase searchTerm in
      List.filter (searchPredicate searchLower) filtered
    else filtered in
  let filtered :=
    match filter_status filters with
    | Some sts =>
        if (0 <? Z.of_nat (length sts)) then
          List.filter (fun todo => Array_includes sts (status todo)) filtered
        else filtered
    | None => filtered
    end in
  let filtered :=
    match filter_priority filters with
    | Some ps =>
        if (0 <? Z.of_nat (length ps)) then
          List.filter (fun todo => Array_includes ps (priority todo)) filtered
        else filtered
    | None => filtered
    end in
  let filtered :=
    match filter_projectId filters with
    | Some pid =>
        if truthyString pid then
          List.filter (fun todo => bool_decide (projectId todo = Some pid))
            filtered
        else filtered
    | None => filtered
    end in
  let filtered :=
    match filter_tagIds filters with
    | Some tids =>
        if (0 <? Z.of_nat (length tids)) then
          List.filter
            (fun todo =>
               match tags todo with
               | Some ts =>
                   Array_some (fun tag => Array_includes tids (tag_id tag)) ts
               | None => false
               end) filtered
        else filtered
    | None => filtered
    end in
  let filtered :=
    if (bool_decide (is_Some (dueDateFrom filters))
        || bool_decide (is_Some (dueDateTo filters)))%bool then
      List.filter (dateRangePredicate filters) filtered
    else filtered in
  filtered.

(** ** The comparator of [filtered.sort((a, b) => ...)] *)

(** The values [aValue] and [bValue] range over ([any] in the source). *)
Inductive JsValue :=
  | JNull
  | JNumber (n : Z)
  | JString (s : string)
  | JIsoString (t : Timestamp).

(** [a[sort.field]] *)
Definition getField (a : Todo) (f : SortField) : JsValue :=
  match f with
  | Field_created_at => JIsoString (created_at a)
  | Field_title => JString (title a)
  | Field_due_date =>
      match due_date a with
      | Some t => JIsoString t
      | None => JNull
      end
  | Field_priority => JString (priorityString (priority a))
  | Field_status => JString (statusString (status a))
  end.

(** [v ? new Date(v).getTime() : 0].  A date field holds a timestamp or
    null; the last two cases do not arise. *)
Definition dateTimeOrZero (v : JsValue) : JsValue :=
  match v with
  | JIsoString t => JNumber t
  | JNull => JNumber 0
  | JNumber n => JNumber n
  | JString s => JNumber 0
  end.

Definition typeofString (v : JsValue) : bool :=
  match v with
  | JString _ | JIsoString _ => true
  | _ => false
  end.

(** [aValue.toLowerCase()] and [bValue?.toLowerCase() || ''].  An ISO
    timestamp never reaches these: the date fields are turned into numbers
    one step earlier. *)
Definition valueToLowerCase (v : JsValue) : JsValue :=
  match v with
  | JString s => JString (toLowerCase s)
  | other => other
  end.

Definition valueToLowerCaseOrEmpty (v : JsValue) : JsValue :=
  match v with
  | JString s => JString (toLowerCase s)
  | JNull => JString ""
  | other => other
  end.

(** [const priorityOrder = { urgent: 4, high: 3, medium: 2, low: 1 }] *)
Definition priorityOrder (key : string) : option Z :=
  if String.eqb key "urgent" then Some 4
  else if String.eqb key "high" then Some 3
  else if String.eqb key "medium" then Some 2
  else if String.eqb key "low" then Some 1
  else None.

(** [const statusOrder = { todo: 1, in_progress: 2, done: 3, cancelled: 4 }] *)
Definition statusOrder (key : string) : option Z :=
  if String.eqb key "todo" then Some 1
  else if String.eqb key "in_progress" then Some 2
  else if String.eqb key "done" then Some 3
  else if String.eqb key "cancelled" then Some 4
  else None.

(** [table[v] || 0] *)
Definition lookupOrZero (table : string -> option Z) (v : JsValue) : JsValue :=
  match v with
  | JString s =>
      match table s with
      | Some n => JNumber n
      | None => JNumber 0
      end
  | _ => JNumber 0
  end.

(** [x < y] and [x > y] on the values that reach the comparison: two numbers
    or two strings (lemma [sortOperands_homogeneous]); strings compare
    by code units. *)
Definition js_lt (x y : JsValue) : bool :=
  match x, y with
  | JNumber m, JNumber n => m <? n
  | JString s, JString t => String.ltb s t
  | _, _ => false
  end.

Definition js_gt (x y : JsValue) : bool := js_lt y x.

(** The two values as they stand when the comparison is reached. *)
Definition sortOperands (sort : TodoSort) (a b : Todo) : JsValue * JsValue :=
  let aValue := getField a (field sort) in
  let bValue := getField b (field sort) in
  let '(aValue, bValue) :=
    if (bool_decide (field sort = Field_created_at)
        || bool_decide (field sort = Field_due_date))%bool
    then (dateTimeOrZero aValue, dateTimeOrZero bValue)
    else (aValue, bValue) in
  let '(aValue, bValue) :=
    if typeofString aValue
    then (valueToLowerCase aValue, valueToLowerCaseOrEmpty bValue)
    else (aValue, bValue) in
  let '(aValue, bValue) :=
    if bool_decide (field sort = Field_priority)
    then (lookupOrZero priorityOrder aValue, lookupOrZero priorityOrder bValue)
    else (aValue, bValue) in
  let '(aValue, bValue) :=
    if bool_decide (field sort = Field_status)
    then (lookupOrZero statusOrder aValue, lookupOrZero statusOrder bValue)
    else (aValue, bValue) in
  (aValue, bValue).

Definition compareTodos (sort : TodoSort) (a b : Todo) : Z :=
  let '(aValue, bValue) := sortOperands sort a b in
  if js_lt aValue bValue then (if bool_decide (order sort = asc) then -1 else 1)
  else if js_gt aValue bValue then
         (if bool_decide (order sort = asc) then 1 else -1)
  else 0.

(** ** [Array.prototype.sort]

    The language standard requires the sort to be stable and, for a
    consistent comparator, fixes its result: the elements in
    non-decreasing comparator order, equal ones in their input order.
    Stable insertion computes that result. *)
Section ArraySort.
Context {A : Type} (comparefn : A -> A -> Z).

Fixpoint sortedInsert (x : A) (l : list A) : list A :=
  match l with
  | [] => [x]
  | y :: l' =>
      if comparefn x y <=? 0 then x :: l else y :: sortedInsert x l'
  end.

Fixpoint Array_sort (l : list A) : list A :=
  match l with
  | [] => []
  | x :: l' => sortedInsert x (Array_sort l')
  end.
End ArraySort.

(** ** [applyFiltersAndSort]: the value handed to [setFilteredTodos] *)
Definition applyFiltersAndSort (todos : list Todo) (searchTerm : string)
    (filters : TodoFilters) (sort : TodoSort) : list Todo :=
  Array_sort (compareTodos sort) (applyFilters todos searchTerm filters).

(** ** Pagination calculations *)

(** [array.slice(start, end)] *)
Definition Array_slice {A} (l : list A) (start end_ : Z) : list A :=
  let len := Z.of_nat (length l) in
  let k := if start <? 0 then Z.max (len + start) 0 else Z.min start len in
  let final := if end_ <? 0 then Z.max (len + end_) 0 else Z.min end_ len in
  let count := Z.max (final - k) 0 in
  take (Z.to_nat count) (drop (Z.to_nat k) l).

(** [Math.ceil(n / d)] for integers [n] and [d > 0] *)
Definition ceilDiv (n d : Z) : Z := - ((- n) / d).

Definition totalPages (filteredTodos : list Todo) (pageSize : Z) : Z :=
  ceilDiv (Z.of_nat (length filteredTodos)) pageSize.

Definition startIndex (currentPage pageSize : Z) : Z :=
  (currentPage - 1) * pageSize.

Definition endIndex (currentPage pageSize : Z) : Z :=
  startIndex currentPage pageSize + pageSize.

Definition paginatedTodos (filteredTodos : list Todo) (pageSize currentPage : Z)
    : list Todo :=
  Array_slice filteredTodos (startIndex currentPage pageSize)
    (endIndex currentPage pageSize).

(** ** Component state and the local change handlers *)

Record ListState := mkState {
  todos : list Todo;
  filteredTodos : list Todo;
  loading : bool;
  error : option string;
  searchTerm : string;
  currentPage : Z;
  isCreateDialogOpen : bool;
  filters : TodoFilters;
  sort : TodoSort
}.

Definition setTodos (f : list Todo -> list Todo) (st : ListState) : ListState :=
  mkState (f (todos st)) (filteredTodos st) (loading st) (error st)
    (searchTerm st) (currentPage st) (isCreateDialogOpen st) (filters st)
    (sort st).

Definition setError (e : option string) (st : ListState) : ListState :=
  mkState (todos st) (filteredTodos st) (loading st) e
    (searchTerm st) (currentPage st) (isCreateDialogOpen st) (filters st)
    (sort st).

Definition setIsCreateDialogOpen (b : bool) (st : ListState) : ListState :=
  mkState (todos st) (filteredTodos st) (loading st) (error st)
    (searchTerm st) (currentPage st) b (filters st) (sort st).

(** [setTodos(prev => prev.map(todo =>
       todo.id === updatedTodo.id ? updatedTodo : todo))] *)
Definition handleTodoUpdate (updatedTodo : Todo) (st : ListState) : ListState :=
  setTodos
    (fun prev =>
       map (fun todo =>
              if bool_decide (id todo = id updatedTodo) then updatedTodo
              else todo) prev)
    st.

(** [setTodos(prev => [newTodo, ...prev]); setIsCreateDialogOpen(false)] *)
Definition handleTodoCreate (newTodo : Todo) (st : ListState) : ListState :=
  setIsCreateDialogOpen false (setTodos (fun prev => newTodo :: prev) st).

(** What a [catch] clause receives: an [Error] with its message, or some
    other value. *)
Inductive Thrown :=
  | ThrownError (message : string)
  | ThrownOther.

(** How [await supabase.from('todos').delete().eq('id', todoId)] settles:
    it resolves to [{ error }] ([None] for a null error), or it throws. *)
Inductive DeleteOutcome :=
  | DeleteResolved (error : option Thrown)
  | DeleteThrew (err : Thrown).

Definition deleteCatch (err : Thrown) (st : ListState) : ListState :=
  setError
    (Some match err with
          | ThrownError message => message
          | ThrownOther => "Failed to delete todo"%string
          end)
    st.

Definition handleTodoDelete (remote : DeleteOutcome) (todoId : string)
    (st : ListState) : ListState :=
  match remote with
  | DeleteResolved None =>
      setTodos
        (fun prev =>
           List.filter (fun todo => negb (bool_decide (id todo = todoId))) prev)
        st
  | DeleteResolved (Some error) => deleteCatch error st
  | DeleteThrew err => deleteCatch err st
  end.


(** ** [handleToggleStatus] of [TodoItem] *)

(** The update sent: [.update({ status, completedAt }).eq('id', todo.id)] *)
Record ToggleUpdate := mkToggleUpdate {
  update_id : string;
  update_status : TodoStatus;
  update_completedAt : option Timestamp
}.

(** [now] is the time of [new Date().toISOString()]; no update is sent
    while [isUpdating] holds. *)
Definition handleToggleStatus (isUpdating : bool) (now : Timestamp)
    (todo : Todo) : option ToggleUpdate :=
  if isUpdating then None
  else
    let newStatus :=
      if bool_decide (status todo = Status_done) then Status_todo
      else Status_done in
    Some (mkToggleUpdate (id todo) newStatus
            (if bool_decide (newStatus = Status_done) then Some now else None)).

(** ** [applyFiltersAndSort] over a store of arrays

    [filtered.sort] sorts in place, so whether the [todos] array survives
    depends on which array [filtered] refers to.  Here arrays are held in a
    store and passed by reference: [[...todos]] and [.filter] allocate a new
    array, [.sort] overwrites the array it is called on. *)
Module Mutable.

Abbreviation loc := nat.
Abbreviation Store := (gmap nat (list Todo)).

Definition M (A : Type) : Type := Store -> A * Store.

Definition ret {A} (x : A) : M A := fun h => (x, h).

Definition bind {A B} (m : M A) (k : A -> M B) : M B :=
  fun h => let '(x, h') := m h in k x h'.

Notation "'do' x <- m ; k" := (bind m (fun x => k))
  (at level 10, x name, m at level 100, k at level 200).

Definition readArray (r : loc) : M (list Todo) :=
  fun h => (default [] (h !! r), h).

Definition newArray (l : list Todo) : M loc :=
  fun h => let r := fresh (dom h) in (r, <[r := l]> h).

(** [[...array]] *)
Definition spread (r : loc) : M loc :=
  do l <- readArray r ; newArray l.

(** [array.filter(p)] *)
Definition filterArray (p : Todo -> bool) (r : loc) : M loc :=
  do l <- readArray r ; newArray (List.filter p l).

(** [array.sort(comparefn)] *)
Definition sortArray (comparefn : Todo -> Todo -> Z) (r : loc) : M loc :=
  fun h => (r, <[r := Array_sort comparefn (default [] (h !! r))]> h).

(** Returns the reference handed to [setFilteredTodos]. *)
Definition applyFiltersAndSort (todos : loc) (searchTerm : string)
    (filters : TodoFilters) (sort : TodoSort) : M loc :=
  do filtered <- spread todos ;
  do filtered <-
    (if truthyString (trim searchTerm) then
       let searchLower := toLowerCase searchTerm in
       filterArray (searchPredicate searchLower) filtered
     else ret filtered) ;
  do filtered <-
    match filter_status filters with
    | Some sts =>
        if (0 <? Z.of_nat (length sts)) then
          filterArray (fun todo => Array_includes sts (status todo)) filtered
        else ret filtered
    | None => ret filtered
    end ;
  do filtered <-
    match filter_priority filters with
    | Some ps =>
        if (0 <? Z.of_nat (length ps)) then
          filterArray (fun todo => Array_includes ps (priority todo)) filtered
        else ret filtered
    | None => ret filtered
    end ;
  do filtered <-
    match filter_projectId filters with
    | Some pid =>
        if truthyString pid then
          filterArray (fun todo => bool_decide (projectId todo = Some pid))
            filtered
        else ret filtered
    | None => ret filtered
    end ;
  do filtered <-
    match filter_tagIds filters with
    | Some tids =>
        if (0 <? Z.of_nat (length tids)) then
          filterArray
            (fun todo =>
               match tags todo with
               | Some ts =>
                   Array_some (fun tag => Array_includes tids (tag_id tag)) ts
               | None => false
               end) filtered
        else ret filtered
    | None => ret filtered
    end ;
  do filtered <-
    (if (bool_decide (is_Some (dueDateFrom filters))
         || bool_decide (is_Some (dueDateTo filters)))%bool then
       filterArray (dateRangePredicate filters) filtered
     else ret filtered) ;
  sortArray (compareTodos sort) filtered.

End Mutable.

(** * Vocabulary of the statements *)

(** A consistent comparator in the sense of the language standard: the
    signs of [comparefn a b] and [comparefn b a] are opposite, and "not
    after" is transitive. *)
Definition ConsistentComparator {A} (comparefn : A -> A -> Z) : Prop :=
  (forall a b, comparefn a b < 0 <-> 0 < comparefn b a) /\
  (forall a b c, comparefn a b <= 0 -> comparefn b c <= 0 -> comparefn a c <= 0).

Definition notAfter {A} (comparefn : A -> A -> Z) (a b : A) : Prop :=
  comparefn a b <= 0.

(** The last three lines of the comparator, on two keys. *)
Definition compareKeys {K} (ltb : K -> K -> bool) (o : SortOrder) (x y : K)
    : Z :=
  if ltb x y then (if bool_decide (o = asc) then -1 else 1)
  else if ltb y x then (if bool_decide (o = asc) then 1 else -1)
  else 0.

(** The position of a priority in the domain order
    low, medium, high, urgent, and of a status in
    todo, in_progress, done, cancelled. *)
Definition priorityRank (p : TodoPriority) : Z :=
  match p with
  | Priority_low => 1
  | Priority_medium => 2
  | Priority_high => 3
  | Priority_urgent => 4
  end.

Definition statusRank (s : TodoStatus) : Z :=
  match s with
  | Status_todo => 1
  | Status_in_progress => 2
  | Status_done => 3
  | Status_cancelled => 4
  end.

(** The number the comparator ends up comparing, for the fields other
    than the title. *)
Definition numericKey (f : SortField) (a : Todo) : Z :=
  match f with
  | Field_created_at => created_at a
  | Field_due_date => default 0 (due_date a)
  | Field_priority => priorityRank (priority a)
  | Field_status => statusRank (status a)
  | Field_title => 0
  end.

(** The domain order on priorities: low, medium, high, urgent. *)
Definition PriorityNotAfter (p q : TodoPriority) : Prop :=
  priorityRank p <= priorityRank q.

Definition byPriority : TodoSort := mkSort Field_priority asc.

(** All the filter passes as one predicate on a record. *)
Definition passesFilters (searchTerm : string) (filters : TodoFilters)
    (todo : Todo) : bool :=
  ((if truthyString (trim searchTerm)
    then searchPredicate (toLowerCase searchTerm) todo else true)
   && match filter_status filters with
      | Some sts =>
          if (0 <? Z.of_nat (length sts))
          then Array_includes sts (status todo) else true
      | None => true
      end
   && match filter_priority filters with
      | Some ps =>
          if (0 <? Z.of_nat (length ps))
          then Array_includes ps (priority todo) else true
      | None => true
      end
   && match filter_projectId filters with
      | Some pid =>
          if truthyString pid
          then bool_decide (projectId todo = Some pid) else true
      | None => true
      end
   && match filter_tagIds filters with
      | Some tids =>
          if (0 <? Z.of_nat (length tids))
          then match tags todo with
               | Some ts =>
                   Array_some (fun tag => Array_includes tids (tag_id tag)) ts
               | None => false
               end
          else true
      | None => true
      end
   && (if (bool_decide (is_Some (dueDateFrom filters))
           || bool_decide (is_Some (dueDateTo filters)))
       then dateRangePredicate filters todo else true))%bool.

(** ** The filter specification, in the words of the data model *)

Definition IsSubstring (sub s : string) : Prop :=
  exists pre post, s = pre +:+ sub +:+ post.

(** Substring of the title or of the description, letter case aside. *)
Definition MatchesSearch (searchTerm : string) (todo : Todo) : Prop :=
  IsSubstring (toLowerCase searchTerm) (toLowerCase (title todo)) \/
  exists d, description todo = Some d /\
            IsSubstring (toLowerCase searchTerm) (toLowerCase d).

(** The conjunction of the predicates that are present, with the project
    and the due date taken from the properties the filter passes read
    ([projectId], [dueDate]).  A predicate is present when it is set to
    something other than the empty value: a search term with a non-blank
    character, a non-empty status, priority or tag list, a non-empty project
    id, a date bound. *)
Record SatisfiesFilterSpec (searchTerm : string) (filters : TodoFilters)
    (todo : Todo) : Prop := mkSatisfies {
  sat_search : trim searchTerm <> "" -> MatchesSearch searchTerm todo;
  sat_status :
    forall sts, filter_status filters = Some sts -> sts <> [] ->
                status todo ∈ sts;
  sat_priority :
    forall ps, filter_priority filters = Some ps -> ps <> [] ->
               priority todo ∈ ps;
  sat_project :
    forall pid, filter_projectId filters = Some pid -> pid <> "" ->
                projectId todo = Some pid;
  sat_tags :
    forall tids, filter_tagIds filters = Some tids -> tids <> [] ->
                 exists tag, tag ∈ default [] (tags todo) /\ tag_id tag ∈ tids;
  sat_dueDate :
    is_Some (dueDateFrom filters) \/ is_Some (dueDateTo filters) ->
    exists d, dueDate todo = Some d /\
              (forall from, dueDateFrom filters = Some from -> from <= d) /\
              (forall to, dueDateTo filters = Some to -> d <= to)
}.

(** Where a run stands with respect to the store [h0] it started from:
    [r] is an array allocated since, it holds [l], and every array of
    [h0] is as it was. *)
Definition Reaches (h0 : Mutable.Store) (l : list Todo)
    (out : Mutable.loc * Mutable.Store) : Prop :=
  h0 !! out.1 = None /\
  out.2 !! out.1 = Some l /\
  forall k v, h0 !! k = Some v -> out.2 !! k = Some v.

(** * Concrete records used in examples *)

Definition sampleTodo (i ttl : string) (p : TodoPriority) (created : Z) : Todo :=
  mkTodo i "u1" "p1" ttl None Status_todo p None None None 0 created created
    None None None.

Definition todoLow := sampleTodo "1" "water plants" Priority_low 10.
Definition todoMedium := sampleTodo "2" "call bank" Priority_medium 20.
Definition todoHigh := sampleTodo "3" "file taxes" Priority_high 30.
Definition todoUrgent := sampleTodo "4" "fix outage" Priority_urgent 40.

Definition tieA := sampleTodo "1" "write report" Priority_low 10.
Definition tieB := sampleTodo "2" "review report" Priority_low 10.

Definition earlier := sampleTodo "7" "book flights" Priority_high 10.
Definition later := sampleTodo "3" "pack bags" Priority_low 20.

Definition emptyState : ListState :=
  mkState [] [] false None "" 1 false emptyFilters initialSort.

Definition storedTodo : Todo :=
  mkTodo "7" "u1" "p1" "renew passport" None Status_done Priority_high None
    None None 0 100 200 None None None.

Definition staleTodo : Todo :=
  mkTodo "7" "u1" "p1" "renew passport" None Status_todo Priority_high None
    None None 0 100 150 None None None.

Definition storedState : ListState :=
  mkState [storedTodo] [storedTodo] false None "" 1 false emptyFilters
    initialSort.

Definition fromOnly : TodoFilters :=
  mkFilters None None None None (Some 1000) None None.

(** * Further parts of the components *)

(** ** The [TodoFilters] component: what each handler passes to
    [onFiltersChange] *)

(** The value of a date input: the empty string ([None]) or a date string,
    kept as the time value [new Date(value)] has. *)
Definition DateInput := option Timestamp.

Inductive DateField := Field_dueDateFrom | Field_dueDateTo.

Definition handleStatusChange (status : TodoStatus) (checked : bool)
    (filters : TodoFilters) : TodoFilters :=
  let currentStatuses := default [] (filter_status filters) in
  let newStatuses :=
    if checked then currentStatuses ++ [status]
    else List.filter (fun s => negb (bool_decide (s = status)))
           currentStatuses in
  mkFilters
    (if (0 <? Z.of_nat (length newStatuses)) then Some newStatuses else None)
    (filter_priority filters) (filter_projectId filters)
    (filter_tagIds filters) (dueDateFrom filters) (dueDateTo filters)
    (filter_search filters).

Definition handlePriorityChange (priority : TodoPriority) (checked : bool)
    (filters : TodoFilters) : TodoFilters :=
  let currentPriorities := default [] (filter_priority filters) in
  let newPriorities :=
    if checked then currentPriorities ++ [priority]
    else List.filter (fun p => negb (bool_decide (p = priority)))
           currentPriorities in
  mkFilters (filter_status filters)
    (if (0 <? Z.of_nat (length newPriorities)) then Some newPriorities
     else None)
    (filter_projectId filters) (filter_tagIds filters) (dueDateFrom filters)
    (dueDateTo filters) (filter_search filters).

Definition handleProjectChange (projectId : string) (filters : TodoFilters)
    : TodoFilters :=
  mkFilters (filter_status filters) (filter_priority filters)
    (if truthyString projectId then Some projectId else None)
    (filter_tagIds filters) (dueDateFrom filters) (dueDateTo filters)
    (filter_search filters).

Definition handleTagChange (tagIds : list string) (filters : TodoFilters)
    : TodoFilters :=
  mkFilters (filter_status filters) (filter_priority filters)
    (filter_projectId filters)
    (if (0 <? Z.of_nat (length tagIds)) then Some tagIds else None)
    (dueDateFrom filters) (dueDateTo filters) (filter_search filters).

Definition handleDateChange (field : DateField) (value : DateInput)
    (filters : TodoFilters) : TodoFilters :=
  match field with
  | Field_dueDateFrom =>
      mkFilters (filter_status filters) (filter_priority filters)
        (filter_projectId filters) (filter_tagIds filters) value
        (dueDateTo filters) (filter_search filters)
  | Field_dueDateTo =>
      mkFilters (filter_status filters) (filter_priority filters)
        (filter_projectId filters) (filter_tagIds filters)
        (dueDateFrom filters) value (filter_search filters)
  end.

Definition handleClearFilters : TodoFilters := emptyFilters.

(** The click on the date-range badge:
    [{ ...filters, dueDateFrom: undefined, dueDateTo: undefined }] *)
Definition clearDateRange (filters : TodoFilters) : TodoFilters :=
  mkFilters (filter_status filters) (filter_priority filters)
    (filter_projectId filters) (filter_tagIds filters) None None
    (filter_search filters).

Definition getActiveFilterCount (filters : TodoFilters) : Z :=
  let count := 0 in
  let count :=
    if match filter_status filters with
       | Some sts => 0 <? Z.of_nat (length sts)
       | None => false
       end then count + 1 else count in
  let count :=
    if match filter_priority filters with
       | Some ps => 0 <? Z.of_nat (length ps)
       | None => false
       end then count + 1 else count in
  let count :=
    if match filter_projectId filters with
       | Some pid => truthyString pid
       | None => false
       end then count + 1 else count in
  let count :=
    if match filter_tagIds filters with
       | Some tids => 0 <? Z.of_nat (length tids)
       | None => false
       end then count + 1 else count in
  let count :=
    if (bool_decide (is_Some (dueDateFrom filters))
        || bool_decide (is_Some (dueDateTo filters)))%bool
    then count + 1 else count in
  let count :=
    if match filter_search filters with
       | Some s => truthyString s
       | None => false
       end then count + 1 else count in
  count.

(** The ways the component calls [onFiltersChange]: the controls of the
    filter popover and the clicks on the badges. *)
Inductive FilterAction :=
  | StatusChange (status : TodoStatus) (checked : bool)
  | PriorityChange (priority : TodoPriority) (checked : bool)
  | ProjectChange (projectId : string)
  | TagChange (tagIds : list string)
  | DateChange (field : DateField) (value : DateInput)
  | ClearFilters
  | ClearDateRange.

Definition filtersAfter (filters : TodoFilters) (a : FilterAction)
    : TodoFilters :=
  match a with
  | StatusChange status checked => handleStatusChange status checked filters
  | PriorityChange priority checked =>
      handlePriorityChange priority checked filters
  | ProjectChange projectId => handleProjectChange projectId filters
  | TagChange tagIds => handleTagChange tagIds filters
  | DateChange field value => handleDateChange field value filters
  | ClearFilters => handleClearFilters
  | ClearDateRange => clearDateRange filters
  end.

(** ** [TodoList]: sort changes, page controls, reload *)

(** [setSort(prev => ({ field, order: prev.field === field &&
    prev.order === 'asc' ? 'desc' : 'asc' }))] *)
Definition handleSortChange (newField : SortField) (prev : TodoSort)
    : TodoSort :=
  mkSort newField
    (if (bool_decide (field prev = newField)
         && bool_decide (order prev = asc))%bool then desc else asc).

Definition setFilteredTodos (l : list Todo) (st : ListState) : ListState :=
  mkState (todos st) l (loading st) (error st) (searchTerm st)
    (currentPage st) (isCreateDialogOpen st) (filters st) (sort st).

Definition setCurrentPage (f : Z -> Z) (st : ListState) : ListState :=
  mkState (todos st) (filteredTodos st) (loading st) (error st)
    (searchTerm st) (f (currentPage st)) (isCreateDialogOpen st) (filters st)
    (sort st).

Definition setLoading (b : bool) (st : ListState) : ListState :=
  mkState (todos st) (filteredTodos st) b (error st) (searchTerm st)
    (currentPage st) (isCreateDialogOpen st) (filters st) (sort st).

Definition setSearchTerm (s : string) (st : ListState) : ListState :=
  mkState (todos st) (filteredTodos st) (loading st) (error st) s
    (currentPage st) (isCreateDialogOpen st) (filters st) (sort st).

Definition setFilters (f : TodoFilters) (st : ListState) : ListState :=
  mkState (todos st) (filteredTodos st) (loading st) (error st)
    (searchTerm st) (currentPage st) (isCreateDialogOpen st) f (sort st).

Definition setSort (f : TodoSort -> TodoSort) (st : ListState) : ListState :=
  mkState (todos st) (filteredTodos st) (loading st) (error st)
    (searchTerm st) (currentPage st) (isCreateDialogOpen st) (filters st)
    (f (sort st)).

(** The state the component starts in. *)
Definition initialState (initialTodos : list Todo) : ListState :=
  mkState initialTodos initialTodos false None "" 1 false emptyFilters
    initialSort.

(** [applyFiltersAndSort] as the effect runs it:
    [setFilteredTodos(filtered); setCurrentPage(1)] *)
Definition runApplyFiltersAndSort (st : ListState) : ListState :=
  setCurrentPage (fun _ => 1)
    (setFilteredTodos
       (applyFiltersAndSort (todos st) (searchTerm st) (filters st) (sort st))
       st).

Definition canGoPrevious (currentPage : Z) : bool := currentPage >? 1.

Definition canGoNext (filteredTodos : list Todo) (pageSize currentPage : Z)
    : bool :=
  currentPage <? totalPages filteredTodos pageSize.

(** The page controls are rendered when [totalPages > 1]; a button that is
    disabled passes no click on. *)
Definition clickPrevious (pageSize : Z) (st : ListState) : ListState :=
  if ((totalPages (filteredTodos st) pageSize >? 1)
      && canGoPrevious (currentPage st))%bool
  then setCurrentPage (fun prev => prev - 1) st else st.

Definition clickNext (pageSize : Z) (st : ListState) : ListState :=
  if ((totalPages (filteredTodos st) pageSize >? 1)
      && canGoNext (filteredTodos st) pageSize (currentPage st))%bool
  then setCurrentPage (fun prev => prev + 1) st else st.

(** "Showing [showingFrom]-[showingTo] of n todos" *)
Definition showingFrom (pageSize currentPage : Z) : Z :=
  startIndex currentPage pageSize + 1.

Definition showingTo (filteredTodos : list Todo) (pageSize currentPage : Z)
    : Z :=
  Z.min (endIndex currentPage pageSize) (Z.of_nat (length filteredTodos)).

(** A row as the select returns it: the columns, and the [todo_tags]
    relation as a list of [{ tag }] objects. *)
Record TagRelation := mkTagRelation { relation_tag : Tag }.

Record TodoRow := mkTodoRow {
  row_columns : Todo;
  row_tags : option (list TagRelation)
}.

Definition withTags (ts : option (list Tag)) (t : Todo) : Todo :=
  mkTodo (id t) (user_id t) (project_id t) (title t) (description t)
    (status t) (priority t) (due_date t) (scheduled_date t) (completed_at t)
    (display_order t) (created_at t) (updated_at t) ts (projectId t)
    (dueDate t).

(** [{ ...todo, tags: todo.tags?.map(tagRelation => tagRelation.tag) || [] }] *)
Definition transformTodo (todo : TodoRow) : Todo :=
  withTags
    (Some match row_tags todo with
          | Some rels => map relation_tag rels
          | None => []
          end)
    (row_columns todo).

(** How the select of [loadTodos] settles. *)
Inductive LoadOutcome :=
  | LoadResolved (data : option (list TodoRow)) (error : option Thrown)
  | LoadThrew (err : Thrown).

Definition loadCatch (err : Thrown) (st : ListState) : ListState :=
  setError
    (Some match err with
          | ThrownError message => message
          | ThrownOther => "Failed to load todos"%string
          end)
    st.

(** [loadTodos] up to its [await]: [setLoading(true); setError(null)] *)
Definition loadTodosStart (st : ListState) : ListState :=
  setError None (setLoading true st).

(** [loadTodos] from the point where the select has settled. *)
Definition loadTodosSettle (remote : LoadOutcome) (st : ListState)
    : ListState :=
  let st :=
    match remote with
    | LoadResolved data None =>
        let transformedTodos :=
          match data with
          | Some rows => map transformTodo rows
          | None => []
          end in
        setTodos (fun _ => transformedTodos) st
    | LoadResolved _ (Some error) => loadCatch error st
    | LoadThrew err => loadCatch err st
    end in
  setLoading false st.

Definition loadTodos (remote : LoadOutcome) (st : ListState) : ListState :=
  loadTodosSettle remote (loadTodosStart st).

(** What can happen to the list component between two renders. *)
Inductive ListEvent :=
  | EffectRuns
  | NextClicked
  | PreviousClicked
  | SearchTyped (value : string)
  | FiltersChanged (a : FilterAction)
  | SortChanged (newField : SortField)
  | TodoUpdated (updatedTodo : Todo)
  | TodoCreated (newTodo : Todo)
  | TodoDeleted (remote : DeleteOutcome) (todoId : string)
  | LoadStarted
  | LoadSettled (remote : LoadOutcome).

Definition listStep (pageSize : Z) (st : ListState) (e : ListEvent)
    : ListState :=
  match e with
  | EffectRuns => runApplyFiltersAndSort st
  | NextClicked => clickNext pageSize st
  | PreviousClicked => clickPrevious pageSize st
  | SearchTyped value => setSearchTerm value st
  | FiltersChanged a => setFilters (filtersAfter (filters st) a) st
  | SortChanged newField => setSort (handleSortChange newField) st
  | TodoUpdated updatedTodo => handleTodoUpdate updatedTodo st
  | TodoCreated newTodo => handleTodoCreate newTodo st
  | TodoDeleted remote todoId => handleTodoDelete remote todoId st
  | LoadStarted => loadTodosStart st
  | LoadSettled remote => loadTodosSettle remote st
  end.

(** ** The [TagSelector] component *)

(** [None] when [onValueChange] is not called. *)
Definition handleTagToggle (value : list string) (maxTags : option Z)
    (tagId : string) : option (list string) :=
  let isSelected := Array_includes value tagId in
  if isSelected then
    Some (List.filter (fun id => negb (bool_decide (id = tagId))) value)
  else if match maxTags with
          | Some m => (negb (m =? 0) && (Z.of_nat (length value) >=? m))%bool
          | None => false
          end
  then None
  else Some (value ++ [tagId]).

Definition handleRemoveTag (value : list string) (tagId : string)
    : list string :=
  List.filter (fun id => negb (bool_decide (id = tagId))) value.

(** The selection the parent holds after a toggle. *)
Definition valueAfterToggle (value : list string) (maxTags : option Z)
    (tagId : string) : list string :=
  default value (handleTagToggle value maxTags tagId).

(** ** The [TodoForm] component *)

Record FormData := mkFormData {
  form_title : string;
  form_description : string;
  form_priority : TodoPriority;
  form_status : TodoStatus;
  form_projectId : string;
  form_tagIds : list string;
  form_dueDate : DateInput;
  form_scheduledDate : DateInput
}.

(** [interface FormErrors { [key: string]: string[] }] *)
Abbreviation FormErrors := (gmap string (list string)).

Record FormState := mkFormState {
  formData : FormData;
  errors : FormErrors;
  isSubmitting : bool
}.

Definition validateForm (isEditing : bool) (formData : FormData)
    : FormErrors :=
  let newErrors : FormErrors := ∅ in
  let newErrors :=
    if negb (truthyString (trim (form_title formData))) then
      <["title"%string := ["Title is required"%string]]> newErrors
    else if (Z.of_nat (String.length (form_title formData)) >? 200) then
      <["title"%string :=
          ["Title must be less than 200 characters"%string]]> newErrors
    else newErrors in
  let newErrors :=
    if (Z.of_nat (String.length (form_description formData)) >? 1000) then
      <["description"%string :=
          ["Description must be less than 1000 characters"%string]]>
        newErrors
    else newErrors in
  let newErrors :=
    if (negb isEditing && negb (truthyString (form_projectId formData)))%bool
    then <["projectId"%string := ["Project is required"%string]]> newErrors
    else newErrors in
  let newErrors :=
    match form_dueDate formData, form_scheduledDate formData with
    | Some dueDate, Some scheduledDate =>
        if (scheduledDate >? dueDate) then
          <["scheduledDate"%string :=
              ["Scheduled date cannot be after due date"%string]]> newErrors
        else newErrors
    | _, _ => newErrors
    end in
  newErrors.

(** [areSetsEqual]; a [Set<string>] is a finite set of strings. *)
Definition areSetsEqual (set1 set2 : gset string) : bool :=
  if negb (size set1 =? size set2)%nat then false
  else forallb (fun item => bool_decide (item ∈ set2)) (elements set1).

Record UpdateTodoInput := mkUpdateTodoInput {
  update_title : string;
  update_description : option string;
  update_priority : TodoPriority;
  update_newStatus : TodoStatus;
  update_projectId : option string;
  update_dueDate : option JsDate;
  update_scheduledDate : option JsDate
}.

Record CreateTodoInput := mkCreateTodoInput {
  create_title : string;
  create_description : option string;
  create_projectId : string;
  create_priority : TodoPriority;
  create_dueDate : option JsDate;
  create_scheduledDate : option JsDate;
  create_tagIds : list string
}.

(** The calls [handleSubmit] makes on the remote store. *)
Inductive Request :=
  | UpdateTodo (todoId : string) (updateData : UpdateTodoInput)
  | InsertTodo (createData : CreateTodoInput)
  | DeleteTodoTags (todoId : string)
  | InsertTodoTags (tagAssociations : list (string * string))
  | SelectTodo (todoId : string).

(** How a call ending in [.select(...).single()] settles: with a row, with
    an error, or by throwing. *)
Inductive RowOutcome :=
  | RowData (data : TodoRow)
  | RowError (error : Thrown)
  | RowThrew (err : Thrown).

(** How a write on [todo_tags] settles; the handler does not read what it
    resolves to. *)
Inductive WriteOutcome :=
  | WriteResolved (error : option Thrown)
  | WriteThrew (err : Thrown).

Record Remote := mkRemote {
  rowOutcome : Request -> RowOutcome;
  writeOutcome : Request -> WriteOutcome
}.

(** What a run of [handleSubmit] does: the calls made, in order, the
    argument of [onSuccess] when it is called, and the state left. *)
Record SubmitResult := mkSubmitResult {
  requests : list Request;
  onSuccessArg : option Todo;
  stateAfter : FormState
}.

(** The [catch] and [finally] clauses. *)
Definition submitFailed (sent : list Request) (st : FormState) : SubmitResult :=
  mkSubmitResult sent None
    (mkFormState (formData st)
       {[ "_form"%string := ["Failed to save todo. Please try again."%string] ]}
       false).

(** [onSuccess(transformedTodo)], then the [finally] clause; [setErrors({})]
    ran before the first call. *)
Definition submitSucceeded (sent : list Request) (transformedTodo : Todo)
    (st : FormState) : SubmitResult :=
  mkSubmitResult sent (Some transformedTodo)
    (mkFormState (formData st) ∅ false).

(** The last call of both branches that rewrite the tags: fetch the todo
    with its tags. *)
Definition fetchWithTags (remote : Remote) (sent : list Request)
    (todoId : string) (st : FormState) : SubmitResult :=
  let request := SelectTodo todoId in
  match rowOutcome remote request with
  | RowData finalTodo =>
      submitSucceeded (sent ++ [request]) (transformTodo finalTodo) st
  | RowError _ | RowThrew _ => submitFailed (sent ++ [request]) st
  end.

(** [await supabase.from('todo_tags').insert(tagAssociations)] when there
    are tag ids, then the fetch. *)
Definition insertTagsThenFetch (remote : Remote) (sent : list Request)
    (todoId : string) (tagIds : list string) (st : FormState)
    : SubmitResult :=
  let tagAssociations := map (fun tagId => (todoId, tagId)) tagIds in
  let request := InsertTodoTags tagAssociations in
  match writeOutcome remote request with
  | WriteResolved _ => fetchWithTags remote (sent ++ [request]) todoId st
  | WriteThrew _ => submitFailed (sent ++ [request]) st
  end.

Definition orNull (s : string) : option string :=
  if truthyString s then Some s else None.

Definition handleSubmit (remote : Remote) (todo : option Todo)
    (st : FormState) : SubmitResult :=
  let isEditing := bool_decide (is_Some todo) in
  let validationErrors := validateForm isEditing (formData st) in
  if (0 <? Z.of_nat (size validationErrors)) then
    mkSubmitResult []
      None (mkFormState (formData st) validationErrors (isSubmitting st))
  else
    let formData := formData st in
    match todo with
    | Some todo =>
        let updateData :=
          mkUpdateTodoInput (trim (form_title formData))
            (orNull (trim (form_description formData)))
            (form_priority formData) (form_status formData)
            (orNull (form_projectId formData))
            (form_dueDate formData) (form_scheduledDate formData) in
        let request := UpdateTodo (id todo) updateData in
        match rowOutcome remote request with
        | RowData updatedTodo =>
            let currentTagIds : gset string :=
              list_to_set match tags todo with
                          | Some ts => map tag_id ts
                          | None => []
                          end in
            let newTagIds : gset string :=
              list_to_set (form_tagIds formData) in
            if negb (areSetsEqual currentTagIds newTagIds) then
              let deletion := DeleteTodoTags (id todo) in
              match writeOutcome remote deletion with
              | WriteResolved _ =>
                  if (0 <? Z.of_nat (length (form_tagIds formData))) then
                    insertTagsThenFetch remote [request; deletion] (id todo)
                      (form_tagIds formData) st
                  else fetchWithTags remote [request; deletion] (id todo) st
              | WriteThrew _ => submitFailed [request; deletion] st
              end
            else submitSucceeded [request] (transformTodo updatedTodo) st
        | RowError _ | RowThrew _ => submitFailed [request] st
        end
    | None =>
        let createData :=
          mkCreateTodoInput (trim (form_title formData))
            (orNull (trim (form_description formData)))
            (form_projectId formData) (form_priority formData)
            (form_dueDate formData) (form_scheduledDate formData)
            (form_tagIds formData) in
        let request := InsertTodo createData in
        match rowOutcome remote request with
        | RowData newTodo =>
            if (0 <? Z.of_nat (length (form_tagIds formData))) then
              insertTagsThenFetch remote [request] (id (row_columns newTodo))
                (form_tagIds formData) st
            else
              submitSucceeded [request]
                (withTags (Some []) (row_columns newTodo)) st
        | RowError _ | RowThrew _ => submitFailed [request] st
        end
    end.

(** ** Vocabulary of the further statements *)

(** No filter is set to an empty value. *)
Definition NormalisedFilters (filters : TodoFilters) : Prop :=
  filter_status filters <> Some [] /\
  filter_priority filters <> Some [] /\
  filter_projectId filters <> Some ""%string /\
  filter_tagIds filters <> Some [].

(** The current page is a page of the filtered list (page 1 when the list
    is empty). *)
Definition PageInRange (pageSize : Z) (st : ListState) : Prop :=
  1 <= currentPage st <= Z.max 1 (totalPages (filteredTodos st) pageSize).

(** The form passes validation. *)
Record ValidForm (isEditing : bool) (formData : FormData) : Prop :=
  mkValidForm {
  valid_title_present : trim (form_title formData) <> ""%string;
  valid_title_length : (String.length (form_title formData) <= 200)%nat;
  valid_description_length :
    (String.length (form_description formData) <= 1000)%nat;
  valid_project :
    isEditing = false -> form_projectId formData <> ""%string;
  valid_dates :
    forall dueDate scheduledDate,
      form_dueDate formData = Some dueDate ->
      form_scheduledDate formData = Some scheduledDate ->
      scheduledDate <= dueDate
}.

(** The title a request carries. *)
Definition requestTitle (r : Request) : option string :=
  match r with
  | UpdateTodo _ updateData => Some (update_title updateData)
  | InsertTodo createData => Some (create_title createData)
  | _ => None
  end.

(** Dropping the leading white space of a list of characters. *)
Fixpoint dropWhiteSpace (l : list ascii) : list ascii :=
  match l with
  | [] => []
  | c :: l' => if isWhiteSpace c then dropWhiteSpace l' else l
  end.

Definition sampleForm : FormData :=
  mkFormData "  buy milk " "" Priority_medium Status_todo "p1" [] None None.

Definition sampleRow : TodoRow :=
  mkTodoRow (sampleTodo "11" "buy milk" Priority_medium 70) None.

(** A remote store on which every call succeeds. *)
Definition obligingRemote : Remote :=
  mkRemote (fun _ => RowData sampleRow) (fun _ => WriteResolved None).

(** A remote store on which every write on the tag associations resolves
    with an error. *)
Definition failingTagWrites : Remote :=
  mkRemote (fun _ => RowData sampleRow)
    (fun _ => WriteResolved (Some (ThrownError "permission denied"))).

Definition taggedForm : FormData :=
  mkFormData "buy milk" "" Priority_medium Status_todo "p1" ["t1"; "t2"] None
    None.

(** ** Vocabulary of the revised statements *)

(** The conjunction of the present predicates among search term, status,
    priority and tags.  The search term is compared after the term and the
    text are both put in lower case. *)
Record SatisfiesPresentFilters (searchTerm : string) (filters : TodoFilters)
    (todo : Todo) : Prop := mkSatisfiesPresent {
  present_search : trim searchTerm <> ""%string -> MatchesSearch searchTerm todo;
  present_status :
    forall sts, filter_status filters = Some sts -> sts <> [] ->
                status todo ∈ sts;
  present_priority :
    forall ps, filter_priority filters = Some ps -> ps <> [] ->
               priority todo ∈ ps;
  present_tags :
    forall tids, filter_tagIds filters = Some tids -> tids <> [] ->
                 exists tag, tag ∈ default [] (tags todo) /\ tag_id tag ∈ tids
}.

(** Neither a project id nor a due-date bound is set. *)
Definition NoProjectOrDateFilter (filters : TodoFilters) : Prop :=
  (filter_projectId filters = None \/ filter_projectId filters = Some ""%string)
  /\ dueDateFrom filters = None /\ dueDateTo filters = None.

Definition projectFilter (pid : string) : TodoFilters :=
  mkFilters None None (Some pid) None None None None.

Definition dateFilter (from to : JsDate) : TodoFilters :=
  mkFilters None None None None (Some from) (Some to) None.

Definition statusFilter (sts : list TodoStatus) : TodoFilters :=
  mkFilters (Some sts) None None None None None None.

(** A row as [database.ts] types it, due at time 500: it has the columns
    [project_id] and [due_date] and no property [projectId] or [dueDate]. *)
Definition datedRow : Todo :=
  mkTodo "5" "u1" "p1" "pay rent" None Status_todo Priority_high (Some 500)
    None None 0 30 30 None None None.

(** Filters stored with empty values: none of them counts as active. *)
Definition blankFilters : TodoFilters :=
  mkFilters (Some []) (Some []) (Some ""%string) (Some []) None None None.

Definition allPriorities : TodoFilters :=
  mkFilters (Some [Status_todo])
    (Some [Priority_low; Priority_medium; Priority_high; Priority_urgent])
    None None None None None.

Definition taggedTodo : Todo :=
  mkTodo "12" "u1" "p1" "plan trip" None Status_todo Priority_low None None
    None 0 80 80 (Some [mkTag "t1" "travel"; mkTag "t2" "family"]) None None.

(** The tags of [taggedTodo], in another order and with a repetition. *)
Definition reorderedTagsForm : FormData :=
  mkFormData "plan trip" "" Priority_low Status_todo "p1" ["t2"; "t1"; "t2"]
    None None.

(** * Facts about the sort *)

Section ArraySortFacts.
Context {A : Type} (comparefn : A -> A -> Z).

Lemma sortedInsert_Permutation x l : sortedInsert comparefn x l ≡ₚ x :: l.
Proof.
  induction l as [|y l IH]; simpl; [done|].
  destruct (comparefn x y <=? 0); [done|].
  rewrite IH. apply Permutation_swap.
Qed.

Lemma Array_sort_Permutation l : Array_sort comparefn l ≡ₚ l.
Proof.
  induction l as [|x l IH]; simpl; [done|].
  by rewrite sortedInsert_Permutation, IH.
Qed.

Lemma Array_sort_elem_of x l : x ∈ Array_sort comparefn l <-> x ∈ l.
Proof. by rewrite Array_sort_Permutation. Qed.

Lemma Array_sort_length l : length (Array_sort comparefn l) = length l.
Proof. by rewrite Array_sort_Permutation. Qed.

Section Consistent.
Hypothesis consistent : ConsistentComparator comparefn.

Lemma comparator_total a b : comparefn a b <= 0 \/ comparefn b a <= 0.
Proof.
  destruct consistent as [Hsign _].
  destruct (Z_le_gt_dec (comparefn a b) 0) as [?|Hgt]; [by left|right].
  assert (comparefn b a < 0) by (apply Hsign; lia). lia.
Qed.

Lemma comparator_tie_sym a b : comparefn a b = 0 -> comparefn b a = 0.
Proof.
  destruct consistent as [Hsign _]. intros Hab.
  destruct (Z.lt_trichotomy (comparefn b a) 0) as [Hlt|[?|Hgt]]; [|done|].
  - apply Hsign in Hlt. lia.
  - apply Hsign in Hgt. lia.
Qed.

Lemma comparator_tie_iff a b :
  comparefn a b = 0 <-> comparefn a b <= 0 /\ comparefn b a <= 0.
Proof.
  destruct consistent as [Hsign _]. split.
  - intros Hab. pose proof (comparator_tie_sym _ _ Hab). lia.
  - intros [Hab Hba].
    destruct (Z.eq_dec (comparefn a b) 0) as [?|Hne]; [done|].
    assert (comparefn a b < 0) as Hlt by lia. apply Hsign in Hlt. lia.
Qed.

Lemma comparator_tie_trans a b c :
  comparefn a b = 0 -> comparefn b c = 0 -> comparefn a c = 0.
Proof.
  destruct consistent as [_ Htrans].
  rewrite !comparator_tie_iff. intros [? ?] [? ?]. split; eauto.
Qed.

Lemma sortedInsert_Sorted x l :
  Sorted (notAfter comparefn) l -> Sorted (notAfter comparefn) (sortedInsert comparefn x l).
Proof.
  induction 1 as [|y l Hl IH Hhd]; simpl.
  - repeat constructor.
  - destruct (Z.leb_spec (comparefn x y) 0) as [Hle|Hgt].
    + constructor; [by constructor|]. by constructor.
    + constructor; [done|].
      assert (notAfter comparefn y x) as Hyx.
      { destruct (comparator_total x y); [lia|done]. }
      destruct Hhd as [|z l' Hyz]; simpl; [by constructor|].
      destruct (comparefn x z <=? 0); by constructor.
Qed.

Lemma Array_sort_Sorted l : Sorted (notAfter comparefn) (Array_sort comparefn l).
Proof.
  induction l as [|x l IH]; simpl; [constructor|].
  by apply sortedInsert_Sorted.
Qed.

Lemma Array_sort_StronglySorted l :
  StronglySorted (notAfter comparefn) (Array_sort comparefn l).
Proof.
  apply Sorted.Sorted_StronglySorted; [|apply Array_sort_Sorted].
  intros a b c. unfold notAfter. destruct consistent as [_ Htrans]. eauto.
Qed.

(** Stability: the records that tie with [z] come out in the order
    they went in. *)
Lemma sortedInsert_ties z x l :
  List.filter (fun y => comparefn z y =? 0) (sortedInsert comparefn x l)
  = List.filter (fun y => comparefn z y =? 0) (x :: l).
Proof.
  induction l as [|y l IH]; [done|].
  cbn [sortedInsert].
  destruct (Z.leb_spec (comparefn x y) 0) as [Hle|Hgt]; [done|].
  cbn [List.filter] in *. rewrite IH.
  destruct (Z.eqb_spec (comparefn z x) 0) as [Hzx|?]; [|done].
  destruct (Z.eqb_spec (comparefn z y) 0) as [Hzy|?]; [|done].
  apply comparator_tie_sym in Hzx.
  pose proof (comparator_tie_trans _ _ _ Hzx Hzy). lia.
Qed.

Lemma Array_sort_stable z l :
  List.filter (fun y => comparefn z y =? 0) (Array_sort comparefn l)
  = List.filter (fun y => comparefn z y =? 0) l.
Proof.
  induction l as [|x l IH]; [done|].
  cbn [Array_sort]. rewrite sortedInsert_ties.
  cbn [List.filter]. by rewrite IH.
Qed.

(** With no ties among the records, the output depends on the records
    only, not on their input order. *)
Lemma Array_sort_unique l1 l2 :
  l1 ≡ₚ l2 ->
  (forall a b, a ∈ l1 -> b ∈ l1 -> comparefn a b = 0 -> a = b) ->
  Array_sort comparefn l1 = Array_sort comparefn l2.
Proof.
  intros Hperm Hties.
  apply (StronglySorted_unique_strong (notAfter comparefn)).
  - intros a b Ha Hb Hab Hba.
    apply Hties.
    + by rewrite Array_sort_Permutation in Ha.
    + rewrite Array_sort_Permutation in Hb. by rewrite Hperm.
    + by apply comparator_tie_iff.
  - apply Array_sort_StronglySorted.
  - apply Array_sort_StronglySorted.
  - by rewrite !Array_sort_Permutation.
Qed.
End Consistent.
End ArraySortFacts.

(** ** The comparator of the view is consistent *)

Section KeyComparator.
Context {K : Type} (ltb : K -> K -> bool).

Hypothesis ltb_asym : forall x y, ltb x y = true -> ltb y x = false.
Hypothesis ltb_negtrans :
  forall x y z, ltb y x = false -> ltb z y = false -> ltb z x = false.

Lemma compareKeys_asc_le x y : compareKeys ltb asc x y <= 0 <-> ltb y x = false.
Proof.
  unfold compareKeys. simpl.
  destruct (ltb x y) eqn:Hxy.
  - rewrite (ltb_asym _ _ Hxy). split; [done|lia].
  - destruct (ltb y x); split; (done || lia).
Qed.

Lemma compareKeys_desc_le x y : compareKeys ltb desc x y <= 0 <-> ltb x y = false.
Proof.
  unfold compareKeys. simpl.
  destruct (ltb x y) eqn:Hxy.
  - split; (done || lia).
  - destruct (ltb y x); split; (done || lia).
Qed.

Lemma compareKeys_sign o x y :
  compareKeys ltb o x y < 0 <-> 0 < compareKeys ltb o y x.
Proof.
  unfold compareKeys.
  destruct (ltb x y) eqn:Hxy, (ltb y x) eqn:Hyx.
  - apply ltb_asym in Hxy. congruence.
  - destruct o; simpl; lia.
  - destruct o; simpl; lia.
  - lia.
Qed.

Lemma compareKeys_consistent {A} (key : A -> K) o :
  ConsistentComparator (fun a b => compareKeys ltb o (key a) (key b)).
Proof.
  split.
  - intros a b. apply compareKeys_sign.
  - intros a b c. destruct o.
    + rewrite !compareKeys_asc_le. apply ltb_negtrans.
    + rewrite !compareKeys_desc_le. intros Hab Hbc.
      by apply (ltb_negtrans _ (key b)).
Qed.
End KeyComparator.

Lemma Z_ltb_asym (x y : Z) : (x <? y) = true -> (y <? x) = false.
Proof. lia. Qed.

Lemma Z_ltb_negtrans (x y z : Z) :
  (y <? x) = false -> (z <? y) = false -> (z <? x) = false.
Proof. lia. Qed.

Lemma String_ltb_asym (x y : string) :
  String.ltb x y = true -> String.ltb y x = false.
Proof.
  unfold String.ltb. rewrite (String.compare_antisym y x).
  by destruct (String.compare x y).
Qed.

Lemma String_compare_not_lt_trans (z y x : string) :
  String.compare z y <> Lt -> String.compare y x <> Lt ->
  String.compare z x <> Lt.
Proof.
  revert y x. induction z as [|c z IH]; intros [|d y] [|e x]; simpl; try done.
  unfold Ascii.compare.
  destruct (N.compare_spec (N_of_ascii c) (N_of_ascii d)) as [Hcd|Hcd|Hcd],
           (N.compare_spec (N_of_ascii d) (N_of_ascii e)) as [Hde|Hde|Hde],
           (N.compare_spec (N_of_ascii c) (N_of_ascii e)) as [Hce|Hce|Hce];
    try done; try lia.
  apply IH.
Qed.

Lemma String_ltb_negtrans (x y z : string) :
  String.ltb y x = false -> String.ltb z y = false -> String.ltb z x = false.
Proof.
  unfold String.ltb. intros Hyx Hzy.
  pose proof (String_compare_not_lt_trans z y x) as Htrans.
  destruct (String.compare z x); [done| |done].
  exfalso. apply Htrans; [| |done].
  - by destruct (String.compare z y).
  - by destruct (String.compare y x).
Qed.

Lemma sortOperands_numeric sort a b :
  field sort <> Field_title ->
  sortOperands sort a b
  = (JNumber (numericKey (field sort) a), JNumber (numericKey (field sort) b)).
Proof.
  destruct sort as [f o]. simpl. intros Hf.
  destruct f; [reflexivity| done | | |]; unfold sortOperands; simpl.
  - destruct (due_date a), (due_date b); reflexivity.
  - destruct (priority a), (priority b); reflexivity.
  - destruct (status a), (status b); reflexivity.
Qed.

Lemma sortOperands_title o a b :
  sortOperands (mkSort Field_title o) a b
  = (JString (toLowerCase (title a)), JString (toLowerCase (title b))).
Proof. done. Qed.

(** The comparison is always between two numbers or two strings. *)
Lemma sortOperands_homogeneous sort a b :
  (exists m n, sortOperands sort a b = (JNumber m, JNumber n)) \/
  (exists s t, sortOperands sort a b = (JString s, JString t)).
Proof.
  destruct (decide (field sort = Field_title)) as [Hf|Hf].
  - right. destruct sort as [f o]. simpl in Hf. subst f.
    rewrite sortOperands_title. eauto.
  - left. rewrite sortOperands_numeric by done. eauto.
Qed.

Lemma compareTodos_numeric sort a b :
  field sort <> Field_title ->
  compareTodos sort a b
  = compareKeys Z.ltb (order sort)
      (numericKey (field sort) a) (numericKey (field sort) b).
Proof.
  intros Hf. unfold compareTodos. by rewrite sortOperands_numeric.
Qed.

Lemma compareTodos_title o a b :
  compareTodos (mkSort Field_title o) a b
  = compareKeys String.ltb o (toLowerCase (title a)) (toLowerCase (title b)).
Proof. unfold compareTodos. by rewrite sortOperands_title. Qed.

Lemma ConsistentComparator_ext {A} (f g : A -> A -> Z) :
  (forall a b, f a b = g a b) -> ConsistentComparator g -> ConsistentComparator f.
Proof.
  intros Heq [Hsign Htrans]. split.
  - intros a b. rewrite !Heq. apply Hsign.
  - intros a b c. rewrite !Heq. apply Htrans.
Qed.

Lemma compareTodos_consistent sort : ConsistentComparator (compareTodos sort).
Proof.
  destruct (decide (field sort = Field_title)) as [Hf|Hf].
  - destruct sort as [f o]. simpl in Hf. subst f.
    eapply ConsistentComparator_ext; [apply compareTodos_title|].
    apply (compareKeys_consistent String.ltb String_ltb_asym String_ltb_negtrans
             (fun a => toLowerCase (title a))).
  - eapply ConsistentComparator_ext.
    + intros a b. by apply compareTodos_numeric.
    + apply (compareKeys_consistent Z.ltb Z_ltb_asym Z_ltb_negtrans
               (numericKey (field sort))).
Qed.

(** * Facts about the filters *)

Lemma filter_all {A} (l : list A) : List.filter (fun _ => true) l = l.
Proof. induction l as [|x l IH]; simpl; [done|by rewrite IH]. Qed.

Lemma filter_twice {A} (p q : A -> bool) (l : list A) :
  List.filter p (List.filter q l) = List.filter (fun x => (q x && p x)%bool) l.
Proof.
  induction l as [|x l IH]; simpl; [done|].
  destruct (q x); simpl; [|done]. destruct (p x); by rewrite IH.
Qed.

Lemma filter_when {A} (c : bool) (p : A -> bool) (l : list A) :
  (if c then List.filter p l else l)
  = List.filter (fun x => if c then p x else true) l.
Proof. destruct c; [done|by rewrite filter_all]. Qed.

Lemma filter_when_nonempty {A B} (o : option (list B))
    (p : list B -> A -> bool) (l : list A) :
  match o with
  | Some bs => if (0 <? Z.of_nat (length bs)) then List.filter (p bs) l else l
  | None => l
  end
  = List.filter
      (fun x => match o with
                | Some bs => if (0 <? Z.of_nat (length bs)) then p bs x else true
                | None => true
                end) l.
Proof.
  destruct o as [bs|]; [|by rewrite filter_all].
  destruct (0 <? Z.of_nat (length bs)); [done|by rewrite filter_all].
Qed.

Lemma filter_when_truthy {A} (o : option string)
    (p : string -> A -> bool) (l : list A) :
  match o with
  | Some s => if truthyString s then List.filter (p s) l else l
  | None => l
  end
  = List.filter
      (fun x => match o with
                | Some s => if truthyString s then p s x else true
                | None => true
                end) l.
Proof.
  destruct o as [s|]; [|by rewrite filter_all].
  destruct (truthyString s); [done|by rewrite filter_all].
Qed.

Lemma applyFilters_filter todos searchTerm filters :
  applyFilters todos searchTerm filters
  = List.filter (passesFilters searchTerm filters) todos.
Proof.
  unfold applyFilters. cbv zeta.
  rewrite (filter_when (bool_decide _ || bool_decide _)).
  rewrite (filter_when_nonempty (filter_tagIds filters)
             (fun tids todo =>
                match tags todo with
                | Some ts =>
                    Array_some (fun tag => Array_includes tids (tag_id tag)) ts
                | None => false
                end)).
  rewrite (filter_when_truthy (filter_projectId filters)
             (fun pid todo => bool_decide (projectId todo = Some pid))).
  rewrite (filter_when_nonempty (filter_priority filters)
             (fun ps todo => Array_includes ps (priority todo))).
  rewrite (filter_when_nonempty (filter_status filters)
             (fun sts todo => Array_includes sts (status todo))).
  rewrite (filter_when (truthyString (trim searchTerm))).
  rewrite !filter_twice. apply filter_ext. intros todo.
  unfold passesFilters. by rewrite !andb_assoc.
Qed.

Lemma filter_Permutation_bool {A} (p : A -> bool) (l1 l2 : list A) :
  l1 ≡ₚ l2 -> List.filter p l1 ≡ₚ List.filter p l2.
Proof.
  induction 1 as [|x l1 l2 _ IH|x y l|l1 l2 l3 _ IH1 _ IH2]; simpl.
  - done.
  - destruct (p x); by rewrite IH.
  - destruct (p x), (p y); try done. apply Permutation_swap.
  - by rewrite IH1.
Qed.

Lemma elem_of_filter_bool {A} (p : A -> bool) (l : list A) (x : A) :
  x ∈ List.filter p l <-> x ∈ l /\ p x = true.
Proof. rewrite !list_elem_of_In. apply filter_In. Qed.

Lemma append_String (c : ascii) (s t : string) :
  String c s +:+ t = String c (s +:+ t).
Proof. reflexivity. Qed.

Lemma prefix_spec (s1 s2 : string) :
  String.prefix s1 s2 = true <-> exists post, s2 = s1 +:+ post.
Proof.
  revert s2. induction s1 as [|c s1 IH]; intros [|d s2]; simpl.
  - split; [by exists ""|done].
  - split; [by exists (String d s2)|done].
  - split; [done|by intros [post ?]].
  - destruct (ascii_dec c d) as [->|Hne].
    + rewrite IH. split; intros [post Hpost]; exists post;
        rewrite append_String in *; congruence.
    + split; [done|]. intros [post Hpost]. rewrite append_String in Hpost.
      congruence.
Qed.

Lemma includes_spec (s sub : string) :
  includes s sub = true <-> IsSubstring sub s.
Proof.
  induction s as [|c s IH]; cbn [includes]; rewrite orb_true_iff, prefix_spec.
  - split.
    + intros [[post Hpost]|?]; [|done]. by exists "", post.
    + intros [[|? ?] [post Hpost]]; [|done]. left. by exists post.
  - rewrite IH. split.
    + intros [[post Hpost]|[pre [post Hpost]]].
      * by exists "", post.
      * exists (String c pre), post. by rewrite append_String, Hpost.
    + intros [[|c' pre] [post Hpost]].
      * left. by exists post.
      * right. exists pre, post. rewrite append_String in Hpost. congruence.
Qed.

Lemma truthyString_spec (s : string) : truthyString s = true <-> s <> "".
Proof.
  unfold truthyString. rewrite negb_true_iff. apply String.eqb_neq.
Qed.

Lemma nonempty_length_spec {A} (l : list A) :
  (0 <? Z.of_nat (length l)) = true <-> l <> [].
Proof. destruct l; simpl; split; (done || lia). Qed.

Lemma searchPredicate_spec searchTerm todo :
  searchPredicate (toLowerCase searchTerm) todo = true
  <-> MatchesSearch searchTerm todo.
Proof.
  unfold searchPredicate, MatchesSearch.
  rewrite orb_true_iff, includes_spec.
  destruct (description todo) as [d|].
  - rewrite includes_spec. split; intros [?|H]; auto.
    + right. eauto.
    + destruct H as [d' [[= <-] ?]]. auto.
  - split; intros [?|H]; auto; [done|]. by destruct H as [? [? ?]].
Qed.

Lemma tagPredicate_spec (tids : list string) (todo : Todo) :
  match tags todo with
  | Some ts => Array_some (fun tag => Array_includes tids (tag_id tag)) ts
  | None => false
  end = true
  <-> exists tag, tag ∈ default [] (tags todo) /\ tag_id tag ∈ tids.
Proof.
  destruct (tags todo) as [ts|]; simpl.
  - unfold Array_some. rewrite existsb_exists. split.
    + intros [tag [Hin Hinc]]. exists tag. rewrite list_elem_of_In.
      split; [done|]. by apply bool_decide_eq_true in Hinc.
    + intros [tag [Hin Hinc]]. exists tag. rewrite <- list_elem_of_In.
      split; [done|]. by apply bool_decide_eq_true.
  - split; [done|]. intros [tag [Hin _]]. by apply not_elem_of_nil in Hin.
Qed.

Lemma dateRangePredicate_spec filters todo :
  dateRangePredicate filters todo = true
  <-> exists d, dueDate todo = Some d /\
                (forall from, dueDateFrom filters = Some from -> from <= d) /\
                (forall to, dueDateTo filters = Some to -> d <= to).
Proof.
  unfold dateRangePredicate.
  destruct (dueDate todo) as [d|]; [|split; [done|by intros [? [? _]]]].
  destruct (dueDateFrom filters) as [from|], (dueDateTo filters) as [to|].
  - destruct (Z.ltb_spec d from), (Z.gtb_spec d to); split; try done.
    + intros [? [[= <-] [H1 H2]]]. specialize (H1 _ eq_refl). lia.
    + intros [? [[= <-] [H1 H2]]]. specialize (H1 _ eq_refl). lia.
    + intros [? [[= <-] [H1 H2]]]. specialize (H2 _ eq_refl). lia.
    + intros _. exists d. repeat split; intros ? [= <-]; lia.
  - destruct (Z.ltb_spec d from); split; try done.
    + intros [? [[= <-] [H1 H2]]]. specialize (H1 _ eq_refl). lia.
    + intros _. exists d. repeat split; intros ? [= <-]; lia.
  - destruct (Z.gtb_spec d to); split; try done.
    + intros [? [[= <-] [H1 H2]]]. specialize (H2 _ eq_refl). lia.
    + intros _. exists d. repeat split; intros ? [= <-]; lia.
  - split; [|done]. intros _. exists d. by repeat split.
Qed.

Lemma passesFilters_spec searchTerm filters todo :
  passesFilters searchTerm filters todo = true
  <-> SatisfiesFilterSpec searchTerm filters todo.
Proof.
  unfold passesFilters. rewrite !andb_true_iff. split.
  - intros [[[[[Hsearch Hstatus] Hpriority] Hproject] Htags] Hdue].
    split.
    + intros Hpresent. apply truthyString_spec in Hpresent.
      rewrite Hpresent in Hsearch. by apply searchPredicate_spec.
    + intros sts Hsts Hne. rewrite Hsts in Hstatus.
      apply nonempty_length_spec in Hne. rewrite Hne in Hstatus.
      by apply bool_decide_eq_true in Hstatus.
    + intros ps Hps Hne. rewrite Hps in Hpriority.
      apply nonempty_length_spec in Hne. rewrite Hne in Hpriority.
      by apply bool_decide_eq_true in Hpriority.
    + intros pid Hpid Hne. rewrite Hpid in Hproject.
      apply truthyString_spec in Hne. rewrite Hne in Hproject.
      by apply bool_decide_eq_true in Hproject.
    + intros tids Htids Hne. rewrite Htids in Htags.
      apply nonempty_length_spec in Hne. rewrite Hne in Htags.
      by apply tagPredicate_spec.
    + intros Hpresent. apply dateRangePredicate_spec.
      destruct (bool_decide _ || bool_decide _) eqn:Hc; [done|].
      apply orb_false_iff in Hc as [H1 H2].
      apply bool_decide_eq_false in H1, H2. tauto.
  - intros [Hsearch Hstatus Hpriority Hproject Htags Hdue].
    repeat split.
    + destruct (truthyString (trim searchTerm)) eqn:Hc; [|done].
      apply searchPredicate_spec, Hsearch. by apply truthyString_spec.
    + destruct (filter_status filters) as [sts|]; [|done].
      destruct (0 <? Z.of_nat (length sts)) eqn:Hc; [|done].
      apply bool_decide_eq_true, Hstatus; [done|].
      by apply nonempty_length_spec.
    + destruct (filter_priority filters) as [ps|]; [|done].
      destruct (0 <? Z.of_nat (length ps)) eqn:Hc; [|done].
      apply bool_decide_eq_true, Hpriority; [done|].
      by apply nonempty_length_spec.
    + destruct (filter_projectId filters) as [pid|]; [|done].
      destruct (truthyString pid) eqn:Hc; [|done].
      apply bool_decide_eq_true, Hproject; [done|].
      by apply truthyString_spec.
    + destruct (filter_tagIds filters) as [tids|]; [|done].
      destruct (0 <? Z.of_nat (length tids)) eqn:Hc; [|done].
      apply tagPredicate_spec, Htags; [done|].
      by apply nonempty_length_spec.
    + destruct (bool_decide _ || bool_decide _) eqn:Hc; [|done].
      apply dateRangePredicate_spec, Hdue.
      apply orb_true_iff in Hc as [H|H]; apply bool_decide_eq_true in H; tauto.
Qed.

(** * Facts about pagination *)

Lemma ceilDiv_bounds (n d : Z) :
  0 < d -> n <= ceilDiv n d * d /\ ceilDiv n d * d < n + d.
Proof.
  intros Hd. unfold ceilDiv.
  pose proof (Z.div_mod (- n) d) as Hdm.
  pose proof (Z.mod_pos_bound (- n) d Hd). nia.
Qed.

(** On a page number [p >= 1] the slice is the [pageSize] records that
    follow the first [(p - 1) * pageSize]. *)
Lemma paginatedTodos_take_drop (l : list Todo) (pageSize p : Z) :
  1 <= pageSize -> 1 <= p ->
  paginatedTodos l pageSize p
  = take (Z.to_nat pageSize) (drop (Z.to_nat (startIndex p pageSize)) l).
Proof.
  intros Hsize Hp. unfold paginatedTodos, endIndex, Array_slice.
  set (s := startIndex p pageSize).
  assert (0 <= s) as Hs by (unfold s, startIndex; nia).
  set (len := Z.of_nat (length l)).
  destruct (Z.ltb_spec s 0) as [?|_]; [lia|].
  destruct (Z.ltb_spec (s + pageSize) 0) as [?|_]; [lia|].
  destruct (Z_lt_le_dec s len) as [Hin|Hout].
  - rewrite (Z.min_l s len) by lia.
    destruct (Z_le_gt_dec (s + pageSize) len) as [Hfull|Hpart].
    + rewrite (Z.min_l (s + pageSize) len) by lia.
      f_equal. lia.
    + rewrite (Z.min_r (s + pageSize) len) by lia.
      rewrite !take_ge; [done| |]; rewrite length_drop; unfold len in *; lia.
  - rewrite (Z.min_r s len) by lia.
    rewrite (Z.min_r (s + pageSize) len) by lia.
    rewrite !drop_ge by (unfold len in *; lia).
    by rewrite !take_nil.
Qed.

Lemma chunks_concat {A} (n m : nat) (l : list A) :
  (0 < n)%nat -> (length l <= m * n)%nat ->
  concat (map (fun k => take n (drop (k * n) l)) (seq 0 m)) = l.
Proof.
  intros Hn. revert l. induction m as [|m IH]; intros l Hlen.
  - destruct l; [done|simpl in Hlen; lia].
  - cbn [seq map concat]. rewrite <- seq_shift, map_map.
    rewrite (map_ext _ (fun k => take n (drop (k * n) (drop n l)))).
    + rewrite IH by (rewrite length_drop; lia).
      simpl. apply take_drop.
    + intros k. by rewrite drop_drop.
Qed.

Lemma pages_concat (l : list Todo) (pageSize : Z) :
  1 <= pageSize ->
  concat (map (paginatedTodos l pageSize) (seqZ 1 (totalPages l pageSize))) = l.
Proof.
  intros Hsize.
  pose proof (ceilDiv_bounds (Z.of_nat (length l)) pageSize ltac:(lia))
    as [Hlo Hhi].
  fold (totalPages l pageSize) in Hlo, Hhi.
  assert (0 <= totalPages l pageSize) as Hnonneg by nia.
  unfold seqZ. rewrite <- list_fmap_compose.
  etransitivity;
    [|apply (chunks_concat (Z.to_nat pageSize)
               (Z.to_nat (totalPages l pageSize)) l); nia].
  f_equal. apply map_ext_in. intros k Hk. apply in_seq in Hk. simpl.
  rewrite paginatedTodos_take_drop by lia.
  do 2 f_equal. unfold startIndex. nia.
Qed.

(** * Facts about the store-based [applyFiltersAndSort] *)

Module MutableFacts.

Lemma fresh_unused (h : Mutable.Store) : h !! fresh (dom h) = None.
Proof. apply not_elem_of_dom, is_fresh. Qed.

Lemma bind_run {A B} (m : Mutable.M A) (k : A -> Mutable.M B)
    (h : Mutable.Store) :
  Mutable.bind m k h = k (m h).1 (m h).2.
Proof. unfold Mutable.bind. by destruct (m h). Qed.

Lemma spread_Reaches (h0 : Mutable.Store) (r : Mutable.loc) (l : list Todo) :
  h0 !! r = Some l -> Reaches h0 l (Mutable.spread r h0).
Proof.
  intros Hr.
  unfold Mutable.spread, Mutable.readArray, Mutable.newArray, Mutable.bind,
    Reaches.
  simpl.
  rewrite Hr. simpl. split; [apply fresh_unused|]. split.
  - apply lookup_insert_eq.
  - intros k v Hk. rewrite lookup_insert_ne; [done|].
    intros <-. by rewrite fresh_unused in Hk.
Qed.

Lemma unused_mono (h0 h : Mutable.Store) :
  (forall k v, h0 !! k = Some v -> h !! k = Some v) ->
  forall k, h !! k = None -> h0 !! k = None.
Proof.
  intros Hkeep k Hk. destruct (h0 !! k) as [v|] eqn:Hv; [|done].
  apply Hkeep in Hv. congruence.
Qed.

Lemma filterArray_Reaches h0 l p (out : Mutable.loc * Mutable.Store) :
  Reaches h0 l out ->
  Reaches h0 (List.filter p l) (Mutable.filterArray p out.1 out.2).
Proof.
  destruct out as [r h]. intros (Hnew & Hr & Hkeep). simpl in *.
  unfold Mutable.filterArray, Mutable.readArray, Mutable.newArray,
    Mutable.bind, Reaches.
  simpl.
  rewrite Hr. simpl. split; [|split].
  - apply (unused_mono h0 h Hkeep), fresh_unused.
  - apply lookup_insert_eq.
  - intros k v Hk. rewrite lookup_insert_ne; [by apply Hkeep|].
    intros <-. apply Hkeep in Hk. by rewrite fresh_unused in Hk.
Qed.

Lemma ret_Reaches h0 l (out : Mutable.loc * Mutable.Store) :
  Reaches h0 l out -> Reaches h0 l (Mutable.ret out.1 out.2).
Proof. by destruct out. Qed.

Lemma sortArray_Reaches h0 l comparefn (out : Mutable.loc * Mutable.Store) :
  Reaches h0 l out ->
  Reaches h0 (Array_sort comparefn l) (Mutable.sortArray comparefn out.1 out.2).
Proof.
  destruct out as [r h]. intros (Hnew & Hr & Hkeep). simpl in *.
  unfold Mutable.sortArray, Reaches. simpl. rewrite Hr. simpl. split; [done|split].
  - apply lookup_insert_eq.
  - intros k v Hk. rewrite lookup_insert_ne; [by apply Hkeep|].
    intros <-. congruence.
Qed.

Lemma when_Reaches h0 l (c : bool) p (out : Mutable.loc * Mutable.Store) :
  Reaches h0 l out ->
  Reaches h0 (if c then List.filter p l else l)
    ((if c then Mutable.filterArray p out.1 else Mutable.ret out.1) out.2).
Proof.
  destruct c; [apply filterArray_Reaches|apply ret_Reaches].
Qed.

Lemma when_nonempty_Reaches {B} h0 l (o : option (list B))
    (p : list B -> Todo -> bool) (out : Mutable.loc * Mutable.Store) :
  Reaches h0 l out ->
  Reaches h0
    match o with
    | Some bs =>
        if (0 <? Z.of_nat (length bs)) then List.filter (p bs) l else l
    | None => l
    end
    (match o with
     | Some bs =>
         if (0 <? Z.of_nat (length bs)) then Mutable.filterArray (p bs) out.1
         else Mutable.ret out.1
     | None => Mutable.ret out.1
     end out.2).
Proof.
  destruct o as [bs|]; [|apply ret_Reaches].
  destruct (0 <? Z.of_nat (length bs));
    [apply filterArray_Reaches|apply ret_Reaches].
Qed.

Lemma when_truthy_Reaches h0 l (o : option string)
    (p : string -> Todo -> bool) (out : Mutable.loc * Mutable.Store) :
  Reaches h0 l out ->
  Reaches h0
    match o with
    | Some s => if truthyString s then List.filter (p s) l else l
    | None => l
    end
    (match o with
     | Some s => if truthyString s then Mutable.filterArray (p s) out.1 else Mutable.ret out.1
     | None => Mutable.ret out.1
     end out.2).
Proof.
  destruct o as [s|]; [|apply ret_Reaches].
  destruct (truthyString s); [apply filterArray_Reaches|apply ret_Reaches].
Qed.

(** The run ends on a new array holding what the list-level function
    computes, with every array of the initial store intact. *)
Lemma applyFiltersAndSort_Reaches (h0 : Mutable.Store) (todosRef : Mutable.loc)
    (arr : list Todo) searchTerm filters sort :
  h0 !! todosRef = Some arr ->
  Reaches h0 (applyFiltersAndSort arr searchTerm filters sort)
    (Mutable.applyFiltersAndSort todosRef searchTerm filters sort h0).
Proof.
  intros Harr. unfold Mutable.applyFiltersAndSort.
  unfold applyFiltersAndSort, applyFilters. cbv zeta.
  rewrite !bind_run.
  apply sortArray_Reaches.
  apply (when_Reaches h0 _ (bool_decide _ || bool_decide _)).
  apply (when_nonempty_Reaches h0 _ (filter_tagIds filters)
           (fun tids todo =>
              match tags todo with
              | Some ts =>
                  Array_some (fun tag => Array_includes tids (tag_id tag)) ts
              | None => false
              end)).
  apply (when_truthy_Reaches h0 _ (filter_projectId filters)
           (fun pid todo => bool_decide (projectId todo = Some pid))).
  apply (when_nonempty_Reaches h0 _ (filter_priority filters)
           (fun ps todo => Array_includes ps (priority todo))).
  apply (when_nonempty_Reaches h0 _ (filter_status filters)
           (fun sts todo => Array_includes sts (status todo))).
  apply (when_Reaches h0 _ (truthyString (trim searchTerm))).
  by apply spread_Reaches.
Qed.
End MutableFacts.

(** * The filtered and sorted view *)

Lemma applyFiltersAndSort_Permutation todos searchTerm filters sort :
  applyFiltersAndSort todos searchTerm filters sort
  ≡ₚ List.filter (passesFilters searchTerm filters) todos.
Proof.
  unfold applyFiltersAndSort.
  by rewrite Array_sort_Permutation, applyFilters_filter.
Qed.

Lemma applyFilters_Permutation todos todos' searchTerm filters :
  todos ≡ₚ todos' ->
  applyFilters todos searchTerm filters ≡ₚ applyFilters todos' searchTerm filters.
Proof.
  intros Hperm. rewrite !applyFilters_filter.
  by apply filter_Permutation_bool.
Qed.

Lemma elem_of_applyFiltersAndSort todos searchTerm filters sort todo :
  todo ∈ applyFiltersAndSort todos searchTerm filters sort
  <-> todo ∈ todos /\ SatisfiesFilterSpec searchTerm filters todo.
Proof.
  rewrite applyFiltersAndSort_Permutation.
  rewrite elem_of_filter_bool. by rewrite passesFilters_spec.
Qed.

Example search_ignores_case :
  map id (applyFiltersAndSort [todoLow; todoMedium; todoHigh] "BANK"
            emptyFilters initialSort)
  = ["2"]%string.
Proof. reflexivity. Qed.

Example blank_search_is_absent :
  map id (applyFiltersAndSort [todoLow; todoMedium; todoHigh] "   "
            emptyFilters initialSort)
  = ["3"; "2"; "1"]%string.
Proof. reflexivity. Qed.

Lemma SatisfiesFilterSpec_without_project_and_dates searchTerm filters todo :
  NoProjectOrDateFilter filters ->
  SatisfiesFilterSpec searchTerm filters todo
  <-> SatisfiesPresentFilters searchTerm filters todo.
Proof.
  intros (Hproject & Hfrom & Hto). split.
  - intros [Hsearch Hstatus Hpriority _ Htags _]. by split.
  - intros [Hsearch Hstatus Hpriority Htags]. split; try done.
    + intros pid Hpid Hne. destruct Hproject as [Hnone|Hblank]; congruence.
    + rewrite Hfrom, Hto. intros [[? [=]]|[? [=]]].
Qed.

(** Where the filtered set departs from the stated predicates.  Case: the
    term "BANK" is no substring of the title "call bank", and the todo has
    no description, yet the todo is in the result.  Project: the row has
    project id "p1" and the filter asks for "p1", yet the result is empty.
    Due date: the row is due at 500 and the range is 100 to 1000, yet the
    result is empty. *)
Lemma filtered_set_departs_from_stated_predicates :
  ~ IsSubstring "BANK" (title todoMedium) /\
  description todoMedium = None /\
  todoMedium
  ∈ applyFiltersAndSort [todoLow; todoMedium] "BANK" emptyFilters initialSort /\
  project_id datedRow = "p1"%string /\
  applyFiltersAndSort [datedRow] "" (projectFilter "p1") initialSort = [] /\
  due_date datedRow = Some 500 /\
  applyFiltersAndSort [datedRow] "" (dateFilter 100 1000) initialSort = [].
Proof.
  split.
  { intros Hsub. apply includes_spec in Hsub. discriminate Hsub. }
  repeat split. apply list_elem_of_In. simpl. auto.
Qed.

(** C1 (amended).  When no project id and no due-date bound is set, a todo
    is in the list that [applyFiltersAndSort] produces exactly when it is
    in the input and satisfies every predicate that is present among: the
    search term as a substring of the title or the description, both taken
    in lower case; status membership; priority membership; a tag in common.
    An absent predicate imposes nothing: with no filter set and an empty
    search term the result holds the same records as the input. *)
Theorem filtered_set_is_conjunction_of_present_filters (todos : list Todo)
    (searchTerm : string) (filters : TodoFilters) (sort : TodoSort) :
  NoProjectOrDateFilter filters ->
  (forall todo,
     todo ∈ applyFiltersAndSort todos searchTerm filters sort
     <-> todo ∈ todos /\ SatisfiesPresentFilters searchTerm filters todo) /\
  applyFiltersAndSort todos "" emptyFilters sort ≡ₚ todos.
Proof.
  intros Hnone. split.
  - intros todo. rewrite elem_of_applyFiltersAndSort.
    by rewrite SatisfiesFilterSpec_without_project_and_dates.
  - unfold applyFiltersAndSort. apply Array_sort_Permutation.
Qed.

Lemma filtered_set_is_conjunction_of_present_filters_witness :
  NoProjectOrDateFilter (statusFilter [Status_todo]) /\
  (todoMedium
   ∈ applyFiltersAndSort [todoLow; todoMedium; storedTodo] "BANK"
       (statusFilter [Status_todo]) initialSort
   <-> todoMedium ∈ [todoLow; todoMedium; storedTodo] /\
       SatisfiesPresentFilters "BANK" (statusFilter [Status_todo]) todoMedium).
Proof.
  assert (NoProjectOrDateFilter (statusFilter [Status_todo])) as Hnone.
  { split; [by left|by split]. }
  split; [exact Hnone|].
  exact (proj1 (filtered_set_is_conjunction_of_present_filters
                  [todoLow; todoMedium; storedTodo] "BANK"
                  (statusFilter [Status_todo]) initialSort Hnone) todoMedium).
Defined.

Example status_and_search_filter_example :
  map id (applyFiltersAndSort [todoLow; todoMedium; storedTodo] "BANK"
            (statusFilter [Status_todo]) initialSort)
  = ["2"]%string.
Proof. reflexivity. Qed.

Lemma compareTodos_byPriority a b :
  compareTodos byPriority a b <= 0 <-> PriorityNotAfter (priority a) (priority b).
Proof.
  rewrite compareTodos_numeric by done. simpl.
  rewrite (compareKeys_asc_le Z.ltb Z_ltb_asym).
  unfold PriorityNotAfter. lia.
Qed.

Lemma priorityRank_inj p q : priorityRank p = priorityRank q -> p = q.
Proof. by destruct p, q. Qed.

Lemma priorities_sorted todos searchTerm filters :
  StronglySorted PriorityNotAfter
    (map priority (applyFiltersAndSort todos searchTerm filters byPriority)).
Proof.
  apply (StronglySorted_fmap priority (notAfter (compareTodos byPriority))).
  - intros a b. apply compareTodos_byPriority.
  - apply Array_sort_StronglySorted, compareTodos_consistent.
Qed.

Lemma StronglySorted_weaken {A} (R1 R2 : relation A) (l : list A) :
  (forall x y, R1 x y -> R2 x y) -> StronglySorted R1 l -> StronglySorted R2 l.
Proof.
  intros Himpl. induction 1 as [|x l Hl IH Hx]; constructor; [done|].
  eapply Forall_impl; eauto.
Qed.

Lemma records_sorted_by_priority todos searchTerm filters :
  Sorted (fun a b => PriorityNotAfter (priority a) (priority b))
    (applyFiltersAndSort todos searchTerm filters byPriority).
Proof.
  apply StronglySorted_Sorted.
  apply (StronglySorted_weaken (notAfter (compareTodos byPriority))).
  - intros a b. apply compareTodos_byPriority.
  - apply Array_sort_StronglySorted, compareTodos_consistent.
Qed.

(** C2.  Sorting by priority in ascending direction gives the records that
    pass the filters (all the input's records when no filter is set), each
    as often as in the input, in the order low, medium, high, urgent; and
    the sequence of priorities in the output is the same for every
    arrangement of the input. *)
Theorem priority_sort_follows_domain_order (todos todos' : list Todo)
    (searchTerm : string) (filters : TodoFilters) :
  todos ≡ₚ todos' ->
  applyFiltersAndSort todos searchTerm filters byPriority
  ≡ₚ applyFilters todos searchTerm filters /\
  applyFiltersAndSort todos "" emptyFilters byPriority ≡ₚ todos /\
  Sorted (fun a b => PriorityNotAfter (priority a) (priority b))
    (applyFiltersAndSort todos searchTerm filters byPriority) /\
  Sorted PriorityNotAfter
    (map priority (applyFiltersAndSort todos searchTerm filters byPriority)) /\
  map priority (applyFiltersAndSort todos' searchTerm filters byPriority)
  = map priority (applyFiltersAndSort todos searchTerm filters byPriority).
Proof.
  intros Hperm. split; [|split; [|split; [|split]]].
  - unfold applyFiltersAndSort. apply Array_sort_Permutation.
  - unfold applyFiltersAndSort. apply Array_sort_Permutation.
  - apply records_sorted_by_priority.
  - apply StronglySorted_Sorted, priorities_sorted.
  - apply (StronglySorted_unique_strong PriorityNotAfter).
    + intros p q _ _ Hpq Hqp. apply priorityRank_inj.
      unfold PriorityNotAfter in *. lia.
    + apply priorities_sorted.
    + apply priorities_sorted.
    + apply Permutation_map. unfold applyFiltersAndSort.
      rewrite !Array_sort_Permutation. symmetry.
      by apply applyFilters_Permutation.
Qed.

Lemma priority_sort_follows_domain_order_witness :
  [todoUrgent; todoHigh; todoLow; todoMedium]
  ≡ₚ [todoHigh; todoMedium; todoUrgent; todoLow] /\
  applyFiltersAndSort [todoUrgent; todoHigh; todoLow; todoMedium] ""
    emptyFilters byPriority
  = [todoLow; todoMedium; todoHigh; todoUrgent] /\
  applyFiltersAndSort [todoUrgent; todoHigh; todoLow; todoMedium] ""
    emptyFilters byPriority
  ≡ₚ [todoUrgent; todoHigh; todoLow; todoMedium] /\
  Sorted (fun a b => PriorityNotAfter (priority a) (priority b))
    (applyFiltersAndSort [todoUrgent; todoHigh; todoLow; todoMedium] ""
       emptyFilters byPriority) /\
  map priority
    (applyFiltersAndSort [todoHigh; todoMedium; todoUrgent; todoLow] ""
       emptyFilters byPriority)
  = map priority
      (applyFiltersAndSort [todoUrgent; todoHigh; todoLow; todoMedium] ""
         emptyFilters byPriority).
Proof.
  assert ([todoUrgent; todoHigh; todoLow; todoMedium]
          ≡ₚ [todoHigh; todoMedium; todoUrgent; todoLow]) as Hperm.
  { apply (Permutation_trans (l' := [todoHigh; todoUrgent; todoLow; todoMedium])).
    - apply perm_swap.
    - apply perm_skip.
      apply (Permutation_trans (l' := [todoUrgent; todoMedium; todoLow])).
      + apply perm_skip, perm_swap.
      + apply (Permutation_trans (l' := [todoMedium; todoUrgent; todoLow])).
        * apply perm_swap.
        * apply Permutation_refl. }
  split; [exact Hperm|]. split; [reflexivity|].
  destruct (priority_sort_follows_domain_order _ _ "" emptyFilters Hperm)
    as (_ & Hall & Hsorted & _ & Hsame).
  split; [exact Hall|]. split; [exact Hsorted|exact Hsame].
Defined.

(** The order is not the lexical order of the names, which would put
    "high" first. *)
Example priority_sort_example :
  map id (applyFiltersAndSort [todoUrgent; todoHigh; todoLow; todoMedium] ""
            emptyFilters byPriority)
  = ["1"; "2"; "3"; "4"]%string.
Proof. reflexivity. Qed.

(** ** Ties *)

(** Two records created at the same time, in the initial sort
    (created_at, descending): each input order comes out unchanged, so the
    two outputs differ, and the second one lists id 2 before id 1. *)
Lemma sort_ties_follow_input_order :
  [tieB; tieA] ≡ₚ [tieA; tieB] /\
  compareTodos initialSort tieA tieB = 0 /\
  applyFiltersAndSort [tieA; tieB] "" emptyFilters initialSort = [tieA; tieB] /\
  applyFiltersAndSort [tieB; tieA] "" emptyFilters initialSort = [tieB; tieA] /\
  applyFiltersAndSort [tieB; tieA] "" emptyFilters initialSort
  <> applyFiltersAndSort [tieA; tieB] "" emptyFilters initialSort.
Proof.
  split; [apply perm_swap|]. repeat split. vm_compute. discriminate.
Qed.

(** C3 (amended).  The sort orders the filtered records by the sort key
    alone and is stable: the output is in non-decreasing comparator order,
    the records that tie with a given one come out in the order they have
    in the input, with no tie-break on the id; and two inputs holding the
    same records give the same output when no two distinct records of the
    output tie. *)
Theorem sort_is_stable_without_tie_break (todos : list Todo)
    (searchTerm : string) (filters : TodoFilters) (sort : TodoSort) :
  let out := applyFiltersAndSort todos searchTerm filters sort in
  Sorted (notAfter (compareTodos sort)) out /\
  (forall z,
     List.filter (fun y => compareTodos sort z y =? 0) out
     = List.filter
         (fun y => (passesFilters searchTerm filters y
                    && (compareTodos sort z y =? 0))%bool) todos) /\
  (forall todos',
     todos ≡ₚ todos' ->
     (forall a b, a ∈ out -> b ∈ out -> compareTodos sort a b = 0 -> a = b) ->
     applyFiltersAndSort todos' searchTerm filters sort = out).
Proof.
  pose proof (compareTodos_consistent sort) as Hcons.
  cbv zeta. unfold applyFiltersAndSort. split; [|split].
  - by apply Array_sort_Sorted.
  - intros z. rewrite Array_sort_stable by done.
    by rewrite applyFilters_filter, filter_twice.
  - intros todos' Hperm Hties. symmetry.
    apply Array_sort_unique; [done| |].
    + by apply applyFilters_Permutation.
    + intros a b Ha Hb. apply Hties; by rewrite Array_sort_Permutation.
Qed.

Lemma sort_is_stable_without_tie_break_witness :
  [earlier; later] ≡ₚ [later; earlier] /\
  applyFiltersAndSort [later; earlier] "" emptyFilters initialSort
  = applyFiltersAndSort [earlier; later] "" emptyFilters initialSort.
Proof.
  split; [apply perm_swap|].
  apply (sort_is_stable_without_tie_break [earlier; later] "" emptyFilters
           initialSort).
  - apply perm_swap.
  - intros a b Ha Hb.
    change (applyFiltersAndSort [earlier; later] "" emptyFilters initialSort)
      with [later; earlier] in Ha, Hb.
    rewrite !elem_of_cons in Ha, Hb. rewrite !elem_of_nil in Ha, Hb.
    destruct Ha as [->|[->|[]]], Hb as [->|[->|[]]];
      vm_compute; (reflexivity || discriminate).
Defined.

(** * Pagination *)

(** C4.  For a page size of at least one, every page holds at most
    [pageSize] records, the record at index [i] of page [p] (the page of
    index [p - 1]) is the record
    at index [(p - 1) * pageSize + i] of the filtered list (so no record
    position lies on two pages), and the pages 1 to [totalPages], put end to
    end, are the filtered list; a list of 45 records with page size 20 has
    three pages, of 20, 20 and 5 records. *)
Theorem pages_partition_filtered_list (filteredTodos : list Todo)
    (pageSize : Z) :
  1 <= pageSize ->
  (forall p, 1 <= p ->
     Z.of_nat (length (paginatedTodos filteredTodos pageSize p)) <= pageSize) /\
  (forall p i todo, 1 <= p ->
     paginatedTodos filteredTodos pageSize p !! i = Some todo ->
     Z.of_nat i < pageSize /\
     filteredTodos !! Z.to_nat (startIndex p pageSize + Z.of_nat i) = Some todo) /\
  concat (map (paginatedTodos filteredTodos pageSize)
            (seqZ 1 (totalPages filteredTodos pageSize))) = filteredTodos /\
  (length filteredTodos = 45%nat -> pageSize = 20 ->
   totalPages filteredTodos pageSize = 3 /\
   map length (map (paginatedTodos filteredTodos pageSize) [1; 2; 3])
   = [20; 20; 5]%nat).
Proof.
  intros Hsize. split; [|split; [|split]].
  - intros p Hp. rewrite paginatedTodos_take_drop by done.
    rewrite length_take. lia.
  - intros p i todo Hp. rewrite paginatedTodos_take_drop by done.
    rewrite lookup_take_Some, lookup_drop. intros [Hlook Hi].
    assert (0 <= startIndex p pageSize) by (unfold startIndex; nia).
    split; [lia|]. rewrite <- Hlook. f_equal. lia.
  - by apply pages_concat.
  - intros Hlen ->. split.
    + unfold totalPages. by rewrite Hlen.
    + cbn [map]. rewrite !paginatedTodos_take_drop by lia.
      rewrite !length_take, !length_drop, Hlen. reflexivity.
Qed.

Lemma pages_partition_filtered_list_witness :
  1 <= 2 /\
  concat (map (paginatedTodos [todoLow; todoMedium; todoHigh] 2)
            (seqZ 1 (totalPages [todoLow; todoMedium; todoHigh] 2)))
  = [todoLow; todoMedium; todoHigh].
Proof.
  split; [lia|].
  apply (pages_partition_filtered_list [todoLow; todoMedium; todoHigh] 2).
  lia.
Defined.

(** * The local change handlers *)

Lemma replace_by_id_twice (u : Todo) (l : list Todo) :
  map (fun todo => if bool_decide (id todo = id u) then u else todo)
    (map (fun todo => if bool_decide (id todo = id u) then u else todo) l)
  = map (fun todo => if bool_decide (id todo = id u) then u else todo) l.
Proof.
  rewrite map_map. apply map_ext. intros todo.
  destruct (bool_decide (id todo = id u)) eqn:Hid; [|by rewrite Hid].
  by rewrite bool_decide_eq_true_2.
Qed.

Lemma remove_by_id_twice (i : string) (l : list Todo) :
  List.filter (fun todo => negb (bool_decide (id todo = i)))
    (List.filter (fun todo => negb (bool_decide (id todo = i))) l)
  = List.filter (fun todo => negb (bool_decide (id todo = i))) l.
Proof.
  rewrite filter_twice. apply filter_ext. intros todo.
  by destruct (negb (bool_decide (id todo = i))).
Qed.

(** Creating the same record twice, starting from the empty collection:
    the second application adds a second copy. *)
Lemma create_twice_duplicates :
  todos (handleTodoCreate tieA emptyState) = [tieA] /\
  todos (handleTodoCreate tieA (handleTodoCreate tieA emptyState))
  = [tieA; tieA] /\
  handleTodoCreate tieA (handleTodoCreate tieA emptyState)
  <> handleTodoCreate tieA emptyState.
Proof. repeat split. discriminate. Qed.

(** C5 (amended).  Applying the same update twice, or the same delete with
    the same remote outcome twice, gives the state reached after the first
    application; applying the same create twice does not: each application
    puts the record at the head of the collection. *)
Theorem update_and_delete_are_idempotent (st : ListState) (updatedTodo : Todo)
    (todoId : string) (remote : DeleteOutcome) (newTodo : Todo) :
  handleTodoUpdate updatedTodo (handleTodoUpdate updatedTodo st)
  = handleTodoUpdate updatedTodo st /\
  handleTodoDelete remote todoId (handleTodoDelete remote todoId st)
  = handleTodoDelete remote todoId st /\
  todos (handleTodoCreate newTodo (handleTodoCreate newTodo st))
  = newTodo :: newTodo :: todos st.
Proof.
  split; [|split].
  - unfold handleTodoUpdate, setTodos. simpl. by rewrite replace_by_id_twice.
  - destruct remote as [[e|]|e]; try done.
    unfold handleTodoDelete, setTodos. simpl. by rewrite remove_by_id_twice.
  - done.
Qed.

(** An update stamped 150 for a record stored with stamp 200 replaces the
    stored record. *)
Lemma stale_update_is_applied :
  id staleTodo = id storedTodo /\
  updated_at staleTodo < updated_at storedTodo /\
  todos storedState = [storedTodo] /\
  todos (handleTodoUpdate staleTodo storedState) = [staleTodo] /\
  handleTodoUpdate staleTodo storedState <> storedState.
Proof. repeat split. discriminate. Qed.

Lemma lookup_map {A B} (f : A -> B) (l : list A) (i : nat) :
  map f l !! i = f <$> (l !! i).
Proof.
  revert i. induction l as [|x l IH]; intros [|i]; simpl; done.
Qed.

Lemma map_fixes_iff {A} (f : A -> A) (l : list A) :
  map f l = l <-> forall x, x ∈ l -> f x = x.
Proof.
  induction l as [|y l IH]; simpl.
  - split; [|done]. intros _ x Hx. by apply elem_of_nil in Hx.
  - split.
    + intros [= Hy Hl] x Hx. apply elem_of_cons in Hx as [->|Hx]; [done|].
      by apply IH.
    + intros Hall. f_equal.
      * apply Hall. by left.
      * apply IH. intros x Hx. apply Hall. by right.
Qed.

(** C6 (amended).  An update replaces every stored record that has its id,
    whatever the [updated_at] stamps of the two; records with other ids and
    the length of the collection stay as they are.  The collection is
    unchanged exactly when every stored record with that id already equals
    the update. *)
Theorem update_replaces_whatever_the_stamp (updatedTodo : Todo)
    (st : ListState) :
  (forall i todo,
     todos st !! i = Some todo ->
     todos (handleTodoUpdate updatedTodo st) !! i
     = Some (if bool_decide (id todo = id updatedTodo) then updatedTodo
             else todo)) /\
  length (todos (handleTodoUpdate updatedTodo st)) = length (todos st) /\
  (todos (handleTodoUpdate updatedTodo st) = todos st
   <-> forall todo, todo ∈ todos st -> id todo = id updatedTodo ->
                    todo = updatedTodo).
Proof.
  unfold handleTodoUpdate, setTodos. simpl. split; [|split].
  - intros i todo Hi. by rewrite lookup_map, Hi.
  - apply length_map.
  - rewrite map_fixes_iff. split.
    + intros Hfix todo Hin Hid. specialize (Hfix todo Hin).
      by rewrite bool_decide_eq_true_2 in Hfix.
    + intros Hsame todo Hin.
      destruct (bool_decide (id todo = id updatedTodo)) eqn:Hid; [|done].
      apply bool_decide_eq_true in Hid. symmetry. by apply Hsame.
Qed.



(** * The input array survives the computation *)

(** [sort] does overwrite the array it is called on. *)
Example sortArray_in_place :
  (Mutable.sortArray (compareTodos byPriority) 0%nat
     {[ 0%nat := [todoUrgent; todoLow] ]}).2 !! 0%nat
  = Some [todoLow; todoUrgent].
Proof. reflexivity. Qed.

(** C8.  Running [applyFiltersAndSort] on the array [todos] leaves that
    array, and every other array of the store, with the same records in the
    same order; the filtered and sorted view is a different array. *)
Theorem applyFiltersAndSort_keeps_input (h : gmap nat (list Todo))
    (todosRef : nat) (arr : list Todo) (searchTerm : string)
    (filters : TodoFilters) (sort : TodoSort) :
  h !! todosRef = Some arr ->
  let out := Mutable.applyFiltersAndSort todosRef searchTerm filters sort h in
  out.2 !! todosRef = Some arr /\
  (forall k v, h !! k = Some v -> out.2 !! k = Some v) /\
  out.1 <> todosRef /\
  out.2 !! out.1 = Some (applyFiltersAndSort arr searchTerm filters sort).
Proof.
  intros Harr out.
  destruct (MutableFacts.applyFiltersAndSort_Reaches h todosRef arr searchTerm
              filters sort Harr) as (Hnew & Hout & Hkeep).
  fold out in Hnew, Hout, Hkeep. repeat split.
  - by apply Hkeep.
  - exact Hkeep.
  - intros Heq. rewrite Heq in Hnew. congruence.
  - exact Hout.
Qed.

Lemma applyFiltersAndSort_keeps_input_witness :
  ({[ 0%nat := [todoUrgent; todoLow] ]} : gmap nat (list Todo)) !! 0%nat
  = Some [todoUrgent; todoLow] /\
  (Mutable.applyFiltersAndSort 0%nat "" emptyFilters byPriority
     {[ 0%nat := [todoUrgent; todoLow] ]}).2 !! 0%nat
  = Some [todoUrgent; todoLow].
Proof.
  split; [reflexivity|].
  refine (proj1 (applyFiltersAndSort_keeps_input
                   {[ 0%nat := [todoUrgent; todoLow] ]} 0%nat
                   [todoUrgent; todoLow] "" emptyFilters byPriority _)).
  reflexivity.
Defined.

(** * Due-date bounds and records without a due date *)

(** C9.  When a due-date bound is set, a todo without a due date is not in
    the filtered result. *)
Theorem date_bound_excludes_undated (todos : list Todo) (searchTerm : string)
    (filters : TodoFilters) (sort : TodoSort) (todo : Todo) :
  is_Some (dueDateFrom filters) \/ is_Some (dueDateTo filters) ->
  dueDate todo = None ->
  todo ∉ applyFiltersAndSort todos searchTerm filters sort.
Proof.
  intros Hbound Hnone Hin.
  apply elem_of_applyFiltersAndSort in Hin as [_ Hsat].
  destruct (sat_dueDate _ _ _ Hsat Hbound) as (d & Hd & _). congruence.
Qed.

Lemma date_bound_excludes_undated_witness :
  (is_Some (dueDateFrom fromOnly) \/ is_Some (dueDateTo fromOnly)) /\
  dueDate todoLow = None /\
  todoLow ∉ applyFiltersAndSort [todoLow; todoHigh] "" fromOnly initialSort.
Proof.
  assert (is_Some (dueDateFrom fromOnly) \/ is_Some (dueDateTo fromOnly))
    as Hbound by (left; exists 1000; reflexivity).
  split; [exact Hbound|]. split; [reflexivity|].
  exact (date_bound_excludes_undated [todoLow; todoHigh] "" fromOnly
           initialSort todoLow Hbound eq_refl).
Defined.

(** * Toggling the completion status *)

(** C10.  The update that the toggle sends: a done todo goes back to todo
    with [completedAt] cleared; a todo in any other status goes to done
    with [completedAt] set to the current time. *)
Theorem toggle_is_two_valued (now : Timestamp) (todo : Todo) :
  handleToggleStatus false now todo
  = Some match status todo with
         | Status_done => mkToggleUpdate (id todo) Status_todo None
         | Status_todo | Status_in_progress | Status_cancelled =>
             mkToggleUpdate (id todo) Status_done (Some now)
         end.
Proof. unfold handleToggleStatus. by destruct (status todo). Qed.

(** * The filter controls *)

Lemma filtersAfter_normalised filters a :
  NormalisedFilters filters -> NormalisedFilters (filtersAfter filters a).
Proof.
  intros (Hst & Hpr & Hpid & Htag).
  destruct a as [s c|p c|pid|tids|fld v| |]; unfold NormalisedFilters; simpl;
    repeat split; try done.
  - destruct (0 <? Z.of_nat (length _)) eqn:Hlen; [|done].
    intros [= Heq]. rewrite Heq in Hlen. done.
  - destruct (0 <? Z.of_nat (length _)) eqn:Hlen; [|done].
    intros [= Heq]. rewrite Heq in Hlen. done.
  - destruct (truthyString pid) eqn:Hpid'; [|done].
    intros [= ->]. done.
  - destruct (0 <? Z.of_nat (length tids)) eqn:Hlen; [|done].
    intros [= ->]. done.
  - by destruct fld.
  - by destruct fld.
  - by destruct fld.
  - by destruct fld.
Qed.

(** X1.  Whatever the user does with the filter controls, starting from the
    empty filters, no filter is ever set to an empty list or an empty
    project id: an emptied filter is stored as absent. *)
Theorem filter_controls_keep_filters_normalised (actions : list FilterAction) :
  NormalisedFilters (foldl filtersAfter emptyFilters actions).
Proof.
  assert (NormalisedFilters emptyFilters) as Hinit by (by repeat split).
  revert Hinit. generalize emptyFilters.
  induction actions as [|a actions IH]; intros filters Hnorm; simpl; [done|].
  by apply IH, filtersAfter_normalised.
Qed.

Lemma count_step (c : bool) (n : Z) :
  0 <= n -> (if c then n + 1 else n) = 0 -> c = false /\ n = 0.
Proof. destruct c; intros; split; (done || lia). Qed.

Lemma count_step_nonneg (c : bool) (n : Z) :
  0 <= n -> 0 <= (if c then n + 1 else n).
Proof. destruct c; lia. Qed.

Lemma no_active_filter_passes searchTerm filters todo :
  getActiveFilterCount filters = 0 ->
  passesFilters searchTerm filters todo
  = passesFilters searchTerm emptyFilters todo.
Proof.
  unfold getActiveFilterCount. cbv zeta. intros Hcount.
  repeat match type of Hcount with
         | (if ?c then ?n + 1 else ?n) = 0 =>
             let H := fresh "Hc" in
             destruct (count_step c n) as [H Hcount'];
               [repeat apply count_step_nonneg; lia | exact Hcount |];
               clear Hcount; rename Hcount' into Hcount
         end.
  unfold passesFilters. simpl.
  destruct filters as [[sts|] [ps|] [pid|] [tids|] from to search];
    simpl in *; rewrite ?Hc, ?Hc0, ?Hc1, ?Hc2, ?Hc3, ?Hc4; reflexivity.
Qed.

(** X2.  When the badge of the filter button counts no active filter, the
    filters take no record away: the view is the one the search term alone
    gives. *)
Theorem no_active_filter_no_filtering (todos : list Todo) (searchTerm : string)
    (filters : TodoFilters) (sort : TodoSort) :
  getActiveFilterCount filters = 0 ->
  applyFiltersAndSort todos searchTerm filters sort
  = applyFiltersAndSort todos searchTerm emptyFilters sort.
Proof.
  intros Hcount. unfold applyFiltersAndSort. f_equal.
  rewrite !applyFilters_filter. apply filter_ext. intros todo.
  by apply no_active_filter_passes.
Qed.

Lemma no_active_filter_no_filtering_witness :
  getActiveFilterCount blankFilters = 0 /\
  blankFilters <> emptyFilters /\
  applyFiltersAndSort [todoLow; todoHigh; storedTodo] "tax" blankFilters
    byPriority
  = applyFiltersAndSort [todoLow; todoHigh; storedTodo] "tax" emptyFilters
      byPriority.
Proof.
  split; [reflexivity|]. split; [discriminate|].
  apply no_active_filter_no_filtering. reflexivity.
Defined.

Lemma filter_out_absent {A} `{EqDecision A} (x : A) (l : list A) :
  x ∉ l -> List.filter (fun y => negb (bool_decide (y = x))) l = l.
Proof.
  induction l as [|y l IH]; [done|]. rewrite not_elem_of_cons.
  intros [Hne Hnin]. simpl. rewrite bool_decide_eq_false_2 by done. simpl.
  by rewrite IH.
Qed.

Lemma filter_out_app {A} `{EqDecision A} (x : A) (l : list A) :
  List.filter (fun y => negb (bool_decide (y = x))) (l ++ [x])
  = List.filter (fun y => negb (bool_decide (y = x))) l.
Proof.
  rewrite List.filter_app. simpl. rewrite bool_decide_eq_true_2 by done.
  simpl. apply app_nil_r.
Qed.

Lemma filter_out_not_elem {A} `{EqDecision A} (x : A) (l : list A) :
  x ∉ List.filter (fun y => negb (bool_decide (y = x))) l.
Proof.
  rewrite elem_of_filter_bool. intros [_ Hx].
  by rewrite bool_decide_eq_true_2 in Hx.
Qed.

Lemma nonempty_or_absent {A} (l : list A) :
  (if (0 <? Z.of_nat (length l)) then Some l else None)
  = match l with [] => None | _ => Some l end.
Proof. by destruct l. Qed.

(** X3.  Ticking a status box that was not ticked and then unticking it
    gives back the filters as they were, provided the status filter is not
    stored as an empty list; the other filters play no part.  Likewise for
    a priority box. *)
Theorem tick_then_untick_restores_filters (filters : TodoFilters)
    (status : TodoStatus) (priority : TodoPriority) :
  (filter_status filters <> Some [] ->
   status ∉ default [] (filter_status filters) ->
   handleStatusChange status false (handleStatusChange status true filters)
   = filters) /\
  (filter_priority filters <> Some [] ->
   priority ∉ default [] (filter_priority filters) ->
   handlePriorityChange priority false
     (handlePriorityChange priority true filters)
   = filters).
Proof.
  destruct filters as [sts ps pid tids from to search]. simpl.
  unfold handleStatusChange, handlePriorityChange. simpl.
  split; intros Hne Hnotin; f_equal.
  - rewrite (nonempty_or_absent (_ ++ [status])).
    destruct (default [] sts ++ [status]) eqn:Happ;
      [by destruct (default [] sts)|].
    rewrite <- Happ. simpl. rewrite filter_out_app, filter_out_absent by done.
    rewrite nonempty_or_absent. by destruct sts as [[|? ?]|].
  - rewrite (nonempty_or_absent (_ ++ [priority])).
    destruct (default [] ps ++ [priority]) eqn:Happ;
      [by destruct (default [] ps)|].
    rewrite <- Happ. simpl. rewrite filter_out_app, filter_out_absent by done.
    rewrite nonempty_or_absent. by destruct ps as [[|? ?]|].
Qed.

(** The status round trip with every priority selected, and the priority
    round trip on filters that hold a date bound only. *)
Lemma tick_then_untick_restores_filters_witness :
  handleStatusChange Status_done false
    (handleStatusChange Status_done true allPriorities)
  = allPriorities /\
  filter_status (handleStatusChange Status_done true allPriorities)
  = Some [Status_todo; Status_done] /\
  handlePriorityChange Priority_low false
    (handlePriorityChange Priority_low true fromOnly)
  = fromOnly.
Proof.
  split; [|split; [reflexivity|]].
  - refine (proj1 (tick_then_untick_restores_filters allPriorities Status_done
                     Priority_low) _ _).
    + discriminate.
    + simpl. rewrite list_elem_of_singleton. discriminate.
  - refine (proj2 (tick_then_untick_restores_filters fromOnly Status_done
                     Priority_low) _ _).
    + discriminate.
    + apply not_elem_of_nil.
Defined.

Lemma Array_includes_app_dup {A} `{EqDecision A} (l : list A) (x y : A) :
  x ∈ l -> Array_includes (l ++ [x]) y = Array_includes l y.
Proof.
  intros Hx. unfold Array_includes. apply bool_decide_ext.
  rewrite elem_of_app, list_elem_of_singleton. split; [|by left].
  intros [?| ->]; done.
Qed.

Lemma handleStatusChange_appends status filters :
  filter_status (handleStatusChange status true filters)
  = Some (default [] (filter_status filters) ++ [status]).
Proof.
  unfold handleStatusChange. cbn [filter_status].
  rewrite nonempty_or_absent.
  by destruct (default [] (filter_status filters)).
Qed.

(** X4.  Ticking a status that is already in the status filter appends it
    once more: the new list is the old one, which holds the status,
    followed by the status, so the status is in it one more time than
    before; the view does not change. *)
Theorem adding_a_selected_status_keeps_view (todos : list Todo)
    (searchTerm : string) (filters : TodoFilters) (sort : TodoSort)
    (status : TodoStatus) :
  status ∈ default [] (filter_status filters) ->
  filter_status (handleStatusChange status true filters)
  = Some (default [] (filter_status filters) ++ [status]) /\
  length (List.filter (fun s => bool_decide (s = status))
            (default [] (filter_status (handleStatusChange status true filters))))
  = S (length (List.filter (fun s => bool_decide (s = status))
                 (default [] (filter_status filters)))) /\
  applyFiltersAndSort todos searchTerm
    (handleStatusChange status true filters) sort
  = applyFiltersAndSort todos searchTerm filters sort.
Proof.
  intros Hin. split; [apply handleStatusChange_appends|]. split.
  { rewrite handleStatusChange_appends. simpl.
    rewrite List.filter_app, length_app. simpl.
    rewrite bool_decide_eq_true_2 by done. simpl. lia. }
  unfold applyFiltersAndSort. f_equal.
  rewrite !applyFilters_filter. apply filter_ext. intros todo.
  destruct filters as [[sts|] ps pid tids from to search]; simpl in Hin;
    [|by apply elem_of_nil in Hin].
  unfold passesFilters, handleStatusChange. simpl.
  rewrite (nonempty_or_absent (sts ++ [status])).
  destruct (sts ++ [status]) eqn:Happ; [by destruct sts|]. rewrite <- Happ.
  assert ((0 <? Z.of_nat (length sts)) = true) as ->.
  { destruct sts; [by apply elem_of_nil in Hin|done]. }
  assert ((0 <? Z.of_nat (length (sts ++ [status]))) = true) as ->.
  { apply Z.ltb_lt. rewrite length_app. cbn [length]. lia. }
  by rewrite Array_includes_app_dup.
Qed.

Lemma adding_a_selected_status_keeps_view_witness :
  Status_todo ∈ default [] (filter_status (statusFilter [Status_todo])) /\
  filter_status (handleStatusChange Status_todo true (statusFilter [Status_todo]))
  = Some [Status_todo; Status_todo] /\
  applyFiltersAndSort [todoLow; storedTodo] ""
    (handleStatusChange Status_todo true (statusFilter [Status_todo]))
    initialSort
  = applyFiltersAndSort [todoLow; storedTodo] "" (statusFilter [Status_todo])
      initialSort.
Proof.
  assert (Status_todo ∈ default [] (filter_status (statusFilter [Status_todo])))
    as Hin by (apply list_elem_of_In; simpl; auto).
  split; [exact Hin|].
  destruct (adding_a_selected_status_keeps_view [todoLow; storedTodo] ""
              (statusFilter [Status_todo]) initialSort Status_todo Hin)
    as (Hlist & _ & Hview).
  split; [exact Hlist|exact Hview].
Defined.

(** X5.  After a status box is unticked, the status filter no longer holds
    that status, however often it was in the list: while another status is
    still selected no todo of the unticked status is shown, and the status
    filter becomes absent exactly when no other status was selected. *)
Theorem unticked_status_is_not_shown (todos : list Todo) (searchTerm : string)
    (filters : TodoFilters) (sort : TodoSort) (unticked : TodoStatus) :
  let filters' := handleStatusChange unticked false filters in
  match filter_status filters' with
  | Some sts =>
      sts <> [] /\ (unticked ∉ sts) /\
      Forall (fun todo => status todo <> unticked)
        (applyFiltersAndSort todos searchTerm filters' sort)
  | None =>
      forall s, s ∈ default [] (filter_status filters) -> s = unticked
  end.
Proof.
  cbv zeta. unfold handleStatusChange at 1. cbn [filter_status].
  set (rest := List.filter _ (default [] (filter_status filters))).
  rewrite nonempty_or_absent.
  destruct rest as [|s0 rest'] eqn:Hrest.
  - intros s Hs. destruct (decide (s = unticked)) as [?|Hne]; [done|].
    assert (s ∈ rest) as Hin.
    { unfold rest. apply elem_of_filter_bool. split; [done|].
      by rewrite bool_decide_eq_false_2. }
    rewrite Hrest in Hin. by apply elem_of_nil in Hin.
  - rewrite <- Hrest. split; [by rewrite Hrest|].
    assert (unticked ∉ rest) as Hnot by apply filter_out_not_elem.
    split; [done|].
    apply Forall_forall. intros todo Hin Hst.
    apply elem_of_applyFiltersAndSort in Hin as [_ Hsat].
    assert (status todo ∈ rest) as Hmem.
    { apply (sat_status _ _ _ Hsat rest).
      - unfold handleStatusChange. cbn [filter_status]. fold rest.
        rewrite nonempty_or_absent. by rewrite Hrest.
      - by rewrite Hrest. }
    by rewrite Hst in Hmem.
Qed.

(** * Sort direction *)

(** X6.  Clicking a sort field puts the sort on that field; a second click
    on it inverts the direction, and from then on the clicks alternate
    between the two directions: three clicks give the sort of one. *)
Theorem sort_clicks_alternate (newField : SortField) (prev : TodoSort) :
  field (handleSortChange newField prev) = newField /\
  handleSortChange newField (handleSortChange newField prev)
  = mkSort newField
      match order (handleSortChange newField prev) with
      | asc => desc
      | desc => asc
      end /\
  handleSortChange newField
    (handleSortChange newField (handleSortChange newField prev))
  = handleSortChange newField prev.
Proof.
  unfold handleSortChange. simpl.
  rewrite (bool_decide_eq_true_2 (newField = newField)) by done. simpl.
  repeat split; destruct (bool_decide (field prev = newField)),
    (bool_decide (order prev = asc)); reflexivity.
Qed.

Lemma compareKeys_desc_swap {K} (ltb : K -> K -> bool) (x y : K) :
  (forall x y, ltb x y = true -> ltb y x = false) ->
  compareKeys ltb desc x y = compareKeys ltb asc y x.
Proof.
  intros Hasym. unfold compareKeys. simpl.
  destruct (ltb x y) eqn:Hxy, (ltb y x) eqn:Hyx; try done.
  apply Hasym in Hxy. congruence.
Qed.

Lemma compareTodos_desc_swap (fld : SortField) (a b : Todo) :
  compareTodos (mkSort fld desc) a b = compareTodos (mkSort fld asc) b a.
Proof.
  destruct (decide (fld = Field_title)) as [->|Hf].
  - rewrite !compareTodos_title.
    apply compareKeys_desc_swap, String_ltb_asym.
  - rewrite !compareTodos_numeric by done. simpl.
    apply compareKeys_desc_swap, Z_ltb_asym.
Qed.

Lemma StronglySorted_rev {A} (R : relation A) (l : list A) :
  StronglySorted R l -> StronglySorted (flip R) (rev l).
Proof.
  induction 1 as [|x l Hl IH Hx]; simpl; [constructor|].
  apply StronglySorted_app_2; [|done|repeat constructor].
  intros y z Hy Hz. rewrite list_elem_of_singleton in Hz. subst z.
  rewrite Forall_forall in Hx. apply Hx.
  rewrite list_elem_of_In in Hy |- *. by apply in_rev.
Qed.

(** X7.  When no two records of the view tie on the sort key, inverting the
    direction reverses the view. *)
Theorem descending_view_is_reversed_ascending_view (todos : list Todo)
    (searchTerm : string) (filters : TodoFilters) (fld : SortField) :
  (forall a b,
     a ∈ applyFilters todos searchTerm filters ->
     b ∈ applyFilters todos searchTerm filters ->
     compareTodos (mkSort fld asc) a b = 0 -> a = b) ->
  applyFiltersAndSort todos searchTerm filters (mkSort fld desc)
  = rev (applyFiltersAndSort todos searchTerm filters (mkSort fld asc)).
Proof.
  intros Hties. unfold applyFiltersAndSort.
  set (l := applyFilters todos searchTerm filters) in *.
  pose proof (compareTodos_consistent (mkSort fld asc)) as Hasc.
  pose proof (compareTodos_consistent (mkSort fld desc)) as Hdesc.
  apply (StronglySorted_unique_strong
           (notAfter (compareTodos (mkSort fld desc)))).
  - intros a b Ha Hb Hab Hba. unfold notAfter in *.
    rewrite compareTodos_desc_swap in Hab, Hba.
    rewrite Array_sort_Permutation in Ha.
    rewrite list_elem_of_In in Hb. apply in_rev in Hb.
    rewrite <- list_elem_of_In, Array_sort_Permutation in Hb.
    apply Hties; [done..|]. by apply (comparator_tie_iff _ Hasc).
  - by apply Array_sort_StronglySorted.
  - apply (StronglySorted_weaken
             (flip (notAfter (compareTodos (mkSort fld asc))))).
    + intros a b. unfold flip, notAfter. by rewrite compareTodos_desc_swap.
    + apply StronglySorted_rev, Array_sort_StronglySorted, Hasc.
  - rewrite Array_sort_Permutation.
    rewrite <- Permutation_rev. by rewrite Array_sort_Permutation.
Qed.

Lemma descending_view_is_reversed_ascending_view_witness :
  applyFiltersAndSort [earlier; later] "" emptyFilters
    (mkSort Field_created_at desc)
  = rev (applyFiltersAndSort [earlier; later] "" emptyFilters
           (mkSort Field_created_at asc)).
Proof.
  apply descending_view_is_reversed_ascending_view.
  intros a b Ha Hb.
  change (applyFilters [earlier; later] "" emptyFilters)
    with [earlier; later] in Ha, Hb.
  rewrite !elem_of_cons in Ha, Hb. rewrite !elem_of_nil in Ha, Hb.
  destruct Ha as [->|[->|[]]], Hb as [->|[->|[]]];
    vm_compute; (reflexivity || discriminate).
Defined.

(** With a tie the two directions give the same list, not reversed lists. *)
Example tied_records_are_not_reversed :
  applyFiltersAndSort [tieA; tieB] "" emptyFilters
    (mkSort Field_created_at desc)
  = applyFiltersAndSort [tieA; tieB] "" emptyFilters
      (mkSort Field_created_at asc).
Proof. reflexivity. Qed.

(** * Page controls *)

Lemma page_within_range (l : list Todo) (pageSize p : Z) :
  1 <= pageSize -> 1 <= p <= totalPages l pageSize ->
  startIndex p pageSize < Z.of_nat (length l) /\
  Z.of_nat (length (paginatedTodos l pageSize p))
  = showingTo l pageSize p - showingFrom pageSize p + 1.
Proof.
  intros Hsize Hp.
  pose proof (ceilDiv_bounds (Z.of_nat (length l)) pageSize ltac:(lia))
    as [_ Hhi].
  fold (totalPages l pageSize) in Hhi.
  assert (startIndex p pageSize < Z.of_nat (length l)) as Hstart
    by (unfold startIndex; nia).
  split; [done|].
  rewrite paginatedTodos_take_drop by lia.
  rewrite length_take, length_drop.
  unfold showingTo, showingFrom, endIndex.
  assert (0 <= startIndex p pageSize) by (unfold startIndex; nia). lia.
Qed.

Lemma page_beyond_range (l : list Todo) (pageSize p : Z) :
  1 <= pageSize -> totalPages l pageSize < p -> 1 <= p ->
  paginatedTodos l pageSize p = [].
Proof.
  intros Hsize Hp Hp1.
  pose proof (ceilDiv_bounds (Z.of_nat (length l)) pageSize ltac:(lia))
    as [Hlo _].
  fold (totalPages l pageSize) in Hlo.
  rewrite paginatedTodos_take_drop by lia.
  rewrite drop_ge; [by rewrite take_nil|]. unfold startIndex. nia.
Qed.

(** X8.  For a page size of at least one, every page from 1 to
    [totalPages] holds at least one record, as many as the text "Showing
    a-b of n" announces, and every page after [totalPages] is empty. *)
Theorem pages_in_range_are_not_empty (filteredTodos : list Todo)
    (pageSize p : Z) :
  1 <= pageSize -> 1 <= p ->
  (p <= totalPages filteredTodos pageSize ->
   paginatedTodos filteredTodos pageSize p <> [] /\
   Z.of_nat (length (paginatedTodos filteredTodos pageSize p))
   = showingTo filteredTodos pageSize p - showingFrom pageSize p + 1) /\
  (totalPages filteredTodos pageSize < p ->
   paginatedTodos filteredTodos pageSize p = []).
Proof.
  intros Hsize Hp. split.
  - intros Hle.
    destruct (page_within_range filteredTodos pageSize p Hsize ltac:(lia))
      as [Hstart Hlen].
    split; [|done]. intros Hnil. rewrite Hnil in Hlen. simpl in Hlen.
    unfold showingTo, showingFrom, endIndex in Hlen. lia.
  - intros Hgt. by apply page_beyond_range.
Qed.

(** Three records, two to a page: page 2 is the last page and holds one
    record; page 3 is beyond the last page and empty. *)
Lemma pages_in_range_are_not_empty_witness :
  1 <= 2 /\
  2 <= totalPages [todoLow; todoMedium; todoHigh] 2 /\
  paginatedTodos [todoLow; todoMedium; todoHigh] 2 2 <> [] /\
  Z.of_nat (length (paginatedTodos [todoLow; todoMedium; todoHigh] 2 2))
  = showingTo [todoLow; todoMedium; todoHigh] 2 2 - showingFrom 2 2 + 1 /\
  paginatedTodos [todoLow; todoMedium; todoHigh] 2 2 = [todoHigh] /\
  totalPages [todoLow; todoMedium; todoHigh] 2 < 3 /\
  paginatedTodos [todoLow; todoMedium; todoHigh] 2 3 = [].
Proof.
  assert (2 <= totalPages [todoLow; todoMedium; todoHigh] 2) as Hin
    by (vm_compute; discriminate).
  assert (totalPages [todoLow; todoMedium; todoHigh] 2 < 3) as Hout
    by reflexivity.
  split; [lia|]. split; [exact Hin|].
  destruct (proj1 (pages_in_range_are_not_empty
                     [todoLow; todoMedium; todoHigh] 2 2 ltac:(lia) ltac:(lia))
              Hin) as [Hne Hlen].
  split; [exact Hne|]. split; [exact Hlen|]. split; [reflexivity|].
  split; [exact Hout|].
  exact (proj2 (pages_in_range_are_not_empty
                  [todoLow; todoMedium; todoHigh] 2 3 ltac:(lia) ltac:(lia))
           Hout).
Defined.

Lemma listStep_PageInRange (pageSize : Z) (st : ListState) (e : ListEvent) :
  1 <= pageSize -> PageInRange pageSize st ->
  PageInRange pageSize (listStep pageSize st e).
Proof.
  intros Hsize Hinv. unfold PageInRange in *.
  destruct e as [| | |v|a|f|u|t|r i| |r]; simpl; try done.
  - lia.
  - unfold clickNext, canGoNext.
    destruct (totalPages (filteredTodos st) pageSize >? 1) eqn:Htot;
      simpl; [|done].
    destruct (Z.ltb_spec (currentPage st)
                (totalPages (filteredTodos st) pageSize)); simpl; lia.
  - unfold clickPrevious, canGoPrevious.
    destruct (totalPages (filteredTodos st) pageSize >? 1) eqn:Htot;
      simpl; [|done].
    destruct (Z.gtb_spec (currentPage st) 1); simpl; lia.
  - by destruct r as [[e|]|e].
  - by destruct r as [d [e|]|e].
Qed.

(** X9.  Whatever happens to the list component (effect runs, page clicks,
    typing, filter and sort changes, local updates, reloads, in any order),
    the current page stays a page of the filtered list: it shows records
    whenever the filtered list is not empty. *)
Theorem current_page_stays_in_range (pageSize : Z) (initialTodos : list Todo)
    (events : list ListEvent) :
  1 <= pageSize ->
  let st := foldl (listStep pageSize) (initialState initialTodos) events in
  PageInRange pageSize st /\
  (filteredTodos st <> [] ->
   paginatedTodos (filteredTodos st) pageSize (currentPage st) <> []).
Proof.
  intros Hsize.
  assert (PageInRange pageSize (initialState initialTodos)) as Hinit.
  { unfold PageInRange. simpl. lia. }
  revert Hinit. generalize (initialState initialTodos).
  induction events as [|e events IH]; intros st0 Hinv; simpl.
  - split; [done|]. intros Hne. unfold PageInRange in Hinv.
    assert (1 <= totalPages (filteredTodos st0) pageSize) as Htot.
    { pose proof (ceilDiv_bounds (Z.of_nat (length (filteredTodos st0)))
                    pageSize ltac:(lia)) as [Hlo _].
      fold (totalPages (filteredTodos st0) pageSize) in Hlo.
      destruct (filteredTodos st0); [done|]. simpl length in Hlo. nia. }
    destruct (page_within_range (filteredTodos st0) pageSize (currentPage st0)
                Hsize ltac:(lia)) as [Hstart Hlen].
    intros Hnil. rewrite Hnil in Hlen. simpl in Hlen.
    unfold showingTo, showingFrom, endIndex in Hlen. lia.
  - by apply IH, listStep_PageInRange.
Qed.

Lemma current_page_stays_in_range_witness :
  1 <= 2 /\
  PageInRange 2
    (foldl (listStep 2) (initialState [todoLow; todoMedium; todoHigh])
       [NextClicked; NextClicked; TodoDeleted (DeleteResolved None) "3";
        EffectRuns; NextClicked; PreviousClicked]).
Proof.
  split; [lia|].
  refine (proj1 (current_page_stays_in_range 2 [todoLow; todoMedium; todoHigh]
                   _ _)).
  lia.
Defined.

(** * Reloading *)

(** X10.  A reload ends with [loading] off and leaves the filtered view
    alone.  When the select fails (it resolves with an error or throws) the
    collection is kept and an error message is set; when it succeeds the
    earlier error is cleared and the collection is the rows received, each
    with a tag list, whatever the collection held before. *)
Theorem reload_keeps_collection_on_failure (remote : LoadOutcome)
    (st : ListState) :
  loading (loadTodos remote st) = false /\
  filteredTodos (loadTodos remote st) = filteredTodos st /\
  match remote with
  | LoadResolved data None =>
      error (loadTodos remote st) = None /\
      todos (loadTodos remote st) = map transformTodo (default [] data) /\
      Forall (fun todo => is_Some (tags todo)) (todos (loadTodos remote st))
  | _ =>
      todos (loadTodos remote st) = todos st /\
      is_Some (error (loadTodos remote st))
  end.
Proof.
  destruct remote as [data [e|]|e]; simpl; repeat split; eauto.
  - by destruct data.
  - destruct data as [rows|]; simpl; [|constructor].
    apply Forall_forall. intros todo Hin. apply list_elem_of_In in Hin.
    apply in_map_iff in Hin as (row & <- & _). simpl. eauto.
Qed.

(** * The tag selector *)

Lemma NoDup_filter_bool {A} (p : A -> bool) (l : list A) :
  NoDup l -> NoDup (List.filter p l).
Proof.
  induction 1 as [|x l Hx Hl IH]; simpl; [constructor|].
  destruct (p x); [|done]. constructor; [|done].
  rewrite elem_of_filter_bool. tauto.
Qed.

(** X11.  A toggle that reaches the parent flips the membership of the
    toggled tag in the selection and of no other tag. *)
Theorem tag_toggle_flips_one_membership (value : list string)
    (maxTags : option Z) (tagId : string) (newValue : list string) :
  handleTagToggle value maxTags tagId = Some newValue ->
  (tagId ∈ newValue <-> tagId ∉ value) /\
  (forall other, other <> tagId -> other ∈ newValue <-> other ∈ value).
Proof.
  unfold handleTagToggle, Array_includes.
  destruct (bool_decide (tagId ∈ value)) eqn:Hsel.
  - apply bool_decide_eq_true in Hsel. intros [= <-]. split.
    + split; [|done]. intros Hin. by apply filter_out_not_elem in Hin.
    + intros other Hne. rewrite elem_of_filter_bool.
      rewrite bool_decide_eq_false_2 by done. simpl. tauto.
  - apply bool_decide_eq_false in Hsel.
    destruct (match maxTags with Some m => _ | None => false end); [done|].
    intros [= <-]. split.
    + rewrite elem_of_app, list_elem_of_singleton. tauto.
    + intros other Hne. rewrite elem_of_app, list_elem_of_singleton. tauto.
Qed.

Lemma tag_toggle_flips_one_membership_witness :
  handleTagToggle ["a"; "b"]%string (Some 3) "c" = Some ["a"; "b"; "c"]%string
  /\
  ("c"%string ∈ ["a"; "b"; "c"]%string <-> "c"%string ∉ ["a"; "b"]%string).
Proof.
  split; [reflexivity|].
  refine (proj1 (tag_toggle_flips_one_membership ["a"; "b"]%string (Some 3)
                   "c" _ _)).
  reflexivity.
Defined.

(** X12.  Toggling keeps a selection that is free of repetitions free of
    them.  For every selection, with or without repetitions: under a limit
    [maxTags] other than 0 a selection within the limit stays within it;
    a limit of 0 is no limit at all; toggling a selected tag is removing
    it, whatever the limit. *)
Theorem tag_toggle_keeps_selection_well_formed (value : list string)
    (maxTags : option Z) (tagId : string) :
  (NoDup value -> NoDup (valueAfterToggle value maxTags tagId)) /\
  (forall m, maxTags = Some m -> m <> 0 -> Z.of_nat (length value) <= m ->
             Z.of_nat (length (valueAfterToggle value maxTags tagId)) <= m) /\
  valueAfterToggle value (Some 0) tagId = valueAfterToggle value None tagId /\
  (tagId ∈ value ->
   handleTagToggle value maxTags tagId = Some (handleRemoveTag value tagId)).
Proof.
  unfold valueAfterToggle, handleTagToggle, handleRemoveTag, Array_includes.
  split; [|split; [|split]].
  - intros Hnodup.
    destruct (bool_decide (tagId ∈ value)) eqn:Hsel; simpl.
    + by apply NoDup_filter_bool.
    + apply bool_decide_eq_false in Hsel.
      destruct (match maxTags with Some m => _ | None => false end);
        simpl; [done|].
      apply NoDup_app. split; [done|]. split; [|apply NoDup_singleton].
      intros x Hx. rewrite list_elem_of_singleton. by intros ->.
  - intros m -> Hm Hlen.
    destruct (bool_decide (tagId ∈ value)) eqn:Hsel; simpl.
    + pose proof (filter_length_le
                    (fun id => negb (bool_decide (id = tagId))) value). lia.
    + destruct (Z.eqb_spec m 0) as [?|_]; [done|]. simpl.
      destruct (Z.geb_spec (Z.of_nat (length value)) m); simpl; [lia|].
      rewrite length_app. simpl. lia.
  - by destruct (bool_decide (tagId ∈ value)).
  - intros Hin. by rewrite bool_decide_eq_true_2.
Qed.

(** An accepted toggle on a selection without repetitions, and a toggle on
    a selection that holds "a" twice. *)
Lemma tag_toggle_keeps_selection_well_formed_witness :
  NoDup ["a"; "b"]%string /\
  valueAfterToggle ["a"; "b"]%string (Some 3) "c" = ["a"; "b"; "c"]%string /\
  NoDup (valueAfterToggle ["a"; "b"]%string (Some 3) "c") /\
  Z.of_nat (length ["a"; "b"; "a"]%string) <= 3 /\
  Z.of_nat (length (valueAfterToggle ["a"; "b"; "a"]%string (Some 3) "c")) <= 3
  /\
  handleTagToggle ["a"; "b"; "a"]%string (Some 3) "a"
  = Some (handleRemoveTag ["a"; "b"; "a"]%string "a").
Proof.
  assert (NoDup ["a"; "b"]%string) as Hnodup.
  { apply NoDup_cons. split.
    - rewrite list_elem_of_singleton. discriminate.
    - apply NoDup_singleton. }
  split; [exact Hnodup|]. split; [reflexivity|].
  split.
  { exact (proj1 (tag_toggle_keeps_selection_well_formed _ (Some 3) "c")
             Hnodup). }
  split; [simpl; lia|]. split.
  { refine (proj1 (proj2 (tag_toggle_keeps_selection_well_formed
                            ["a"; "b"; "a"]%string (Some 3) "c")) 3 eq_refl _ _).
    - discriminate.
    - simpl. lia. }
  refine (proj2 (proj2 (proj2 (tag_toggle_keeps_selection_well_formed
                                 ["a"; "b"; "a"]%string (Some 3) "a"))) _).
  apply list_elem_of_In. simpl. auto.
Defined.

(** * The todo form *)

Lemma insert_not_empty (k : string) (v : list string) (m : FormErrors) :
  <[k := v]> m <> ∅.
Proof. apply insert_non_empty. Qed.

Lemma validateForm_valid isEditing formData :
  ValidForm isEditing formData -> validateForm isEditing formData = ∅.
Proof.
  intros [Htitle Hlen Hdesc Hproj Hdates]. unfold validateForm. cbv zeta.
  apply truthyString_spec in Htitle. rewrite Htitle. simpl.
  destruct (Z.gtb_spec (Z.of_nat (String.length (form_title formData))) 200);
    [lia|].
  destruct (Z.gtb_spec (Z.of_nat (String.length (form_description formData)))
              1000); [lia|].
  assert ((negb isEditing && negb (truthyString (form_projectId formData)))%bool
          = false) as ->.
  { destruct isEditing; [done|]. simpl.
    apply negb_false_iff, truthyString_spec. by apply Hproj. }
  destruct (form_dueDate formData) as [d|]; [|done].
  destruct (form_scheduledDate formData) as [s|]; [|done].
  specialize (Hdates d s eq_refl eq_refl).
  destruct (Z.gtb_spec s d); [lia|done].
Qed.

Lemma validateForm_empty isEditing formData :
  validateForm isEditing formData = ∅ -> ValidForm isEditing formData.
Proof.
  unfold validateForm. cbv zeta. intros Hempty.
  destruct (truthyString (trim (form_title formData))) eqn:Htitle;
    simpl in Hempty;
    destruct (Z.gtb_spec (Z.of_nat (String.length (form_title formData))) 200)
      as [Hlen|Hlen];
    destruct (Z.gtb_spec
                (Z.of_nat (String.length (form_description formData))) 1000)
      as [Hdesc|Hdesc];
    destruct (negb isEditing
              && negb (truthyString (form_projectId formData)))%bool
      eqn:Hproj;
    destruct (form_dueDate formData) as [d|] eqn:Hdue;
    destruct (form_scheduledDate formData) as [s|] eqn:Hsched;
    try destruct (Z.gtb_spec s d) as [Hgt|Hle];
    try (by apply insert_not_empty in Hempty).
  all: split; try lia; try (by apply truthyString_spec).
  all: try (intros ->; simpl in Hproj;
            by apply negb_false_iff, truthyString_spec in Hproj).
  all: intros ? ? Hd Hs; rewrite Hdue in Hd; rewrite Hsched in Hs;
    simplify_eq; lia.
Qed.

(** X13.  The form passes validation (no error is produced) exactly when
    the title has a non-blank character and at most 200 characters, the
    description has at most 1000, a new todo has a project, and a scheduled
    date does not come after the due date. *)
Theorem validation_passes_iff_form_is_valid (isEditing : bool)
    (formData : FormData) :
  validateForm isEditing formData = ∅ <-> ValidForm isEditing formData.
Proof.
  split; [apply validateForm_empty|apply validateForm_valid].
Qed.

Lemma areSetsEqual_spec (set1 set2 : gset string) :
  areSetsEqual set1 set2 = true <-> set1 = set2.
Proof.
  unfold areSetsEqual.
  destruct (Nat.eqb_spec (size set1) (size set2)) as [Hsize|Hsize]; simpl.
  - rewrite forallb_forall. split.
    + intros Hall. apply set_subseteq_size_eq; [|lia].
      intros x Hx. apply elem_of_elements, list_elem_of_In, Hall in Hx.
      by apply bool_decide_eq_true in Hx.
    + intros -> x Hx. apply bool_decide_eq_true.
      by apply list_elem_of_In, elem_of_elements in Hx.
  - split; [done|]. intros ->. done.
Qed.

Lemma areSetsEqual_spec_lists (ids1 ids2 : list string) :
  areSetsEqual (list_to_set ids1) (list_to_set ids2) = true
  <-> forall tagId, tagId ∈ ids1 <-> tagId ∈ ids2.
Proof.
  rewrite areSetsEqual_spec, set_eq.
  by setoid_rewrite elem_of_list_to_set.
Qed.

(** X14.  [areSetsEqual] holds exactly for equal sets; on the two lists of
    tag ids the form compares, that is: the same ids, in any order and
    with any repetition. *)
Theorem areSetsEqual_iff_same_elements (set1 set2 : gset string)
    (ids1 ids2 : list string) :
  (areSetsEqual set1 set2 = true <-> set1 = set2) /\
  (areSetsEqual (list_to_set ids1) (list_to_set ids2) = true
   <-> forall tagId, tagId ∈ ids1 <-> tagId ∈ ids2).
Proof.
  split; [apply areSetsEqual_spec|apply areSetsEqual_spec_lists].
Qed.

Lemma chars_trimStart (s : string) :
  list_ascii_of_string (trimStart s)
  = dropWhiteSpace (list_ascii_of_string s).
Proof.
  induction s as [|c s IH]; simpl; [done|]. by destruct (isWhiteSpace c).
Qed.

Lemma chars_trim (s : string) :
  list_ascii_of_string (trim s)
  = rev (dropWhiteSpace (rev (dropWhiteSpace (list_ascii_of_string s)))).
Proof.
  unfold trim, trimEnd, reverseString.
  rewrite list_ascii_of_string_of_list_ascii, chars_trimStart.
  by rewrite list_ascii_of_string_of_list_ascii, chars_trimStart.
Qed.

Lemma chars_length (s : string) :
  String.length s = length (list_ascii_of_string s).
Proof. induction s as [|c s IH]; simpl; [done|by rewrite IH]. Qed.

Lemma chars_inj (s t : string) :
  list_ascii_of_string s = list_ascii_of_string t -> s = t.
Proof.
  intros Heq. rewrite <- (string_of_list_ascii_of_string s).
  rewrite <- (string_of_list_ascii_of_string t). by rewrite Heq.
Qed.

Lemma dropWhiteSpace_length (l : list ascii) :
  (length (dropWhiteSpace l) <= length l)%nat.
Proof.
  induction l as [|c l IH]; simpl; [done|].
  destruct (isWhiteSpace c); simpl; lia.
Qed.

Lemma dropWhiteSpace_fixed (c : ascii) (l : list ascii) :
  isWhiteSpace c = false -> dropWhiteSpace (c :: l) = c :: l.
Proof. intros Hc. simpl. by rewrite Hc. Qed.

Lemma dropWhiteSpace_head (l : list ascii) :
  dropWhiteSpace l = [] \/
  exists c l', dropWhiteSpace l = c :: l' /\ isWhiteSpace c = false.
Proof.
  induction l as [|c l IH]; simpl; [by left|].
  destruct (isWhiteSpace c) eqn:Hc; [done|]. right. eauto.
Qed.

Lemma dropWhiteSpace_twice (l : list ascii) :
  dropWhiteSpace (dropWhiteSpace l) = dropWhiteSpace l.
Proof.
  destruct (dropWhiteSpace_head l) as [->|(c & l' & -> & Hc)]; [done|].
  by apply dropWhiteSpace_fixed.
Qed.

Lemma dropWhiteSpace_snoc (l : list ascii) (c : ascii) :
  isWhiteSpace c = false ->
  dropWhiteSpace (l ++ [c]) = dropWhiteSpace l ++ [c].
Proof.
  intros Hc. induction l as [|d l IH]; simpl; [by rewrite Hc|].
  by destruct (isWhiteSpace d).
Qed.

Lemma trim_chars_twice (l : list ascii) :
  let trimmed := rev (dropWhiteSpace (rev (dropWhiteSpace l))) in
  rev (dropWhiteSpace (rev (dropWhiteSpace trimmed))) = trimmed.
Proof.
  cbv zeta.
  destruct (dropWhiteSpace_head l) as [->|(c & l' & -> & Hc)]; [done|].
  change (rev (c :: l')) with (rev l' ++ [c]).
  rewrite (dropWhiteSpace_snoc _ c Hc).
  set (w := dropWhiteSpace (rev l')).
  assert (dropWhiteSpace w = w) as Hw by apply dropWhiteSpace_twice.
  rewrite rev_app_distr. change (rev [c] ++ rev w) with (c :: rev w).
  rewrite (dropWhiteSpace_fixed c _ Hc).
  change (rev (c :: rev w)) with (rev (rev w) ++ [c]).
  rewrite rev_involutive, (dropWhiteSpace_snoc _ c Hc), Hw.
  by rewrite rev_app_distr.
Qed.

Lemma trim_twice (s : string) : trim (trim s) = trim s.
Proof.
  apply chars_inj. rewrite (chars_trim (trim s)), !chars_trim.
  apply trim_chars_twice.
Qed.

Lemma trim_length (s : string) :
  (String.length (trim s) <= String.length s)%nat.
Proof.
  rewrite !chars_length, chars_trim, length_rev.
  etransitivity; [apply dropWhiteSpace_length|]. rewrite length_rev.
  apply dropWhiteSpace_length.
Qed.

Lemma size_positive_iff (m : FormErrors) :
  (0 <? Z.of_nat (size m)) = false <-> m = ∅.
Proof.
  rewrite Z.ltb_ge. rewrite <- map_size_empty_iff. lia.
Qed.

Ltac submit_paths :=
  unfold insertTagsThenFetch, fetchWithTags, submitFailed, submitSucceeded;
  repeat case_match; simpl.

Lemma handleSubmit_invalid remote todo st :
  validateForm (bool_decide (is_Some todo)) (formData st) <> ∅ ->
  handleSubmit remote todo st
  = mkSubmitResult [] None
      (mkFormState (formData st)
         (validateForm (bool_decide (is_Some todo)) (formData st))
         (isSubmitting st)).
Proof.
  intros Hne. unfold handleSubmit. cbv zeta.
  destruct (0 <? Z.of_nat (size _)) eqn:Hsize; [done|].
  by apply size_positive_iff in Hsize.
Qed.

Lemma handleSubmit_valid_sends remote todo st :
  validateForm (bool_decide (is_Some todo)) (formData st) = ∅ ->
  exists first rest,
    requests (handleSubmit remote todo st) = first :: rest /\
    requestTitle first = Some (trim (form_title (formData st))) /\
    Forall (fun r => requestTitle r = None) rest.
Proof.
  intros Hvalid. unfold handleSubmit. cbv zeta.
  rewrite (proj2 (size_positive_iff _) Hvalid).
  destruct todo as [todo|]; submit_paths;
    eexists _, _; (split; [reflexivity|]); split; try reflexivity;
    repeat constructor.
Qed.

(** X15.  [handleSubmit] calls the remote store exactly when the form
    passes validation; otherwise it only stores the validation errors:
    [onSuccess] is not called and the submitting flag is not touched. *)
Theorem requests_are_sent_iff_form_is_valid (remote : Remote)
    (todo : option Todo) (st : FormState) :
  let result := handleSubmit remote todo st in
  (requests result <> []
   <-> ValidForm (bool_decide (is_Some todo)) (formData st)) /\
  (requests result = [] ->
   onSuccessArg result = None /\
   stateAfter result
   = mkFormState (formData st)
       (validateForm (bool_decide (is_Some todo)) (formData st))
       (isSubmitting st)).
Proof.
  cbv zeta.
  destruct (decide (validateForm (bool_decide (is_Some todo)) (formData st)
                    = ∅)) as [Hvalid|Hinvalid].
  - destruct (handleSubmit_valid_sends remote todo st Hvalid)
      as (first & rest & -> & _). split; [|done].
    split; [|done]. intros _. by apply validateForm_empty.
  - rewrite (handleSubmit_invalid remote todo st Hinvalid). simpl.
    split; [|done]. split; [done|].
    intros Hvalid. by apply validateForm_valid in Hvalid.
Qed.

(** X16.  When calls are made, the first one carries the trimmed title of
    the form and no later one carries a title; the title carried has no
    white space at either end, is not empty and has at most 200
    characters. *)
Theorem submitted_title_is_trimmed (remote : Remote) (todo : option Todo)
    (st : FormState) :
  Forall
    (fun r =>
       forall t, requestTitle r = Some t ->
                 t = trim (form_title (formData st)) /\
                 trim t = t /\ t <> ""%string /\
                 (String.length t <= 200)%nat)
    (requests (handleSubmit remote todo st)) /\
  (forall first rest,
     requests (handleSubmit remote todo st) = first :: rest ->
     requestTitle first = Some (trim (form_title (formData st))) /\
     Forall (fun r => requestTitle r = None) rest).
Proof.
  destruct (decide (validateForm (bool_decide (is_Some todo)) (formData st)
                    = ∅)) as [Hvalid|Hinvalid].
  - destruct (handleSubmit_valid_sends remote todo st Hvalid)
      as (first & rest & -> & Hfirst & Hrest).
    apply validateForm_empty in Hvalid as [Htitle Hlen _ _ _].
    split.
    + constructor.
      * intros t Ht. rewrite Hfirst in Ht. injection Ht as <-.
        split; [done|]. split; [apply trim_twice|]. split; [done|].
        etransitivity; [apply trim_length|done].
      * eapply Forall_impl; [exact Hrest|]. intros r Hr t Ht. congruence.
    + intros first' rest' [= <- <-]. by split.
  - rewrite (handleSubmit_invalid remote todo st Hinvalid).
    split; [constructor|]. intros first rest Heq. discriminate Heq.
Qed.



(** With other tag ids in the form the tags are rewritten: the update is
    followed by the deletion of the associations and the fetch. *)
Example changed_tags_are_rewritten :
  map requestTitle
    (requests (handleSubmit obligingRemote (Some taggedTodo)
                 (mkFormState sampleForm ∅ false)))
  = [Some "buy milk"%string; None; None] /\
  length (requests (handleSubmit obligingRemote (Some taggedTodo)
                      (mkFormState reorderedTagsForm ∅ false)))
  = 1%nat.
Proof. split; vm_compute; reflexivity. Qed.

(** X18.  When the form is valid, every call for a row returns a row and
    no call throws, [onSuccess] is called and no error is stored: an error
    that a write on the tag associations resolves with goes unnoticed. *)
Theorem tag_write_errors_go_unnoticed (remote : Remote) (todo : option Todo)
    (st : FormState) :
  ValidForm (bool_decide (is_Some todo)) (formData st) ->
  (forall r, exists row, rowOutcome remote r = RowData row) ->
  (forall r, exists error, writeOutcome remote r = WriteResolved error) ->
  is_Some (onSuccessArg (handleSubmit remote todo st)) /\
  errors (stateAfter (handleSubmit remote todo st)) = ∅.
Proof.
  intros Hvalid Hrows Hwrites. apply validateForm_valid in Hvalid.
  unfold handleSubmit. cbv zeta.
  rewrite (proj2 (size_positive_iff _) Hvalid).
  unfold insertTagsThenFetch, fetchWithTags.
  destruct todo as [todo|];
    repeat first
      [ match goal with
        | |- context [rowOutcome remote ?r] =>
            let Hr := fresh in
            destruct (Hrows r) as [? Hr]; rewrite Hr; clear Hr;
            cbv beta iota zeta
        | |- context [writeOutcome remote ?r] =>
            let Hr := fresh in
            destruct (Hwrites r) as [? Hr]; rewrite Hr; clear Hr;
            cbv beta iota zeta
        end
      | case_match ];
    (split; [eexists; reflexivity|reflexivity]).
Qed.

Lemma tag_write_errors_go_unnoticed_witness :
  ValidForm false taggedForm /\
  is_Some (onSuccessArg (handleSubmit failingTagWrites None
                           (mkFormState taggedForm ∅ false))).
Proof.
  assert (ValidForm false taggedForm) as Hvalid
    by (apply validateForm_empty; reflexivity).
  split; [exact Hvalid|].
  refine (proj1 (tag_write_errors_go_unnoticed failingTagWrites None
                   (mkFormState taggedForm ∅ false) Hvalid _ _));
    intros r; eexists; reflexivity.
Defined.

Ltac list_not_empty :=
  let H := fresh in
  intros H; apply (f_equal length) in H; rewrite ?length_app in H;
  simpl in H; lia.

Lemma handleSubmit_valid_outcome remote todo st :
  validateForm (bool_decide (is_Some todo)) (formData st) = ∅ ->
  (exists sent saved,
     sent <> [] /\ is_Some (tags saved) /\
     handleSubmit remote todo st = submitSucceeded sent saved st) \/
  (exists sent,
     sent <> [] /\ handleSubmit remote todo st = submitFailed sent st).
Proof.
  intros Hvalid. unfold handleSubmit. cbv zeta.
  rewrite (proj2 (size_positive_iff _) Hvalid).
  unfold insertTagsThenFetch, fetchWithTags.
  destruct todo as [todo|]; repeat case_match;
    first
      [ right; eexists; split; [|reflexivity]; list_not_empty
      | left; eexists _, _; split; [|split; [|reflexivity]];
        [list_not_empty|eexists; reflexivity] ].
Qed.

(** X19.  [onSuccess] is called exactly when the run leaves no error in the
    form; the todo it receives always has a tag list; whenever a call was
    made the submitting flag ends off; the form data are never changed. *)
Theorem onSuccess_iff_no_error_left (remote : Remote) (todo : option Todo)
    (st : FormState) :
  let result := handleSubmit remote todo st in
  (is_Some (onSuccessArg result) <-> errors (stateAfter result) = ∅) /\
  (forall saved, onSuccessArg result = Some saved -> is_Some (tags saved)) /\
  (requests result <> [] -> isSubmitting (stateAfter result) = false) /\
  formData (stateAfter result) = formData st.
Proof.
  cbv zeta.
  destruct (decide (validateForm (bool_decide (is_Some todo)) (formData st)
                    = ∅)) as [Hvalid|Hinvalid].
  - destruct (handleSubmit_valid_outcome remote todo st Hvalid)
      as [(sent & saved & Hsent & Htags & ->)|(sent & Hsent & ->)];
      unfold submitSucceeded, submitFailed; cbn [onSuccessArg stateAfter
        errors isSubmitting formData requests].
    + split; [split; [reflexivity|eexists; reflexivity]|].
      split; [by intros ? [= <-]|]. split; reflexivity.
    + split.
      { split; [by intros [? [=]]|]. intros Hempty.
        by apply insert_not_empty in Hempty. }
      split; [by intros ? [=]|]. split; reflexivity.
  - rewrite (handleSubmit_invalid remote todo st Hinvalid).
    cbn [onSuccessArg stateAfter errors isSubmitting formData requests].
    split; [split; [by intros [? [=]]|done]|].
    split; [by intros ? [=]|]. split; [done|reflexivity].
Qed.

(** * Local changes and the view *)

